(** * Graph tracing and model reversal of [innvestigate.utils.keras.graph]

    A shallow embedding of the trace pruning, node identification,
    bottleneck detection and [reverse_model] of
    [src/innvestigate/utils/keras/graph.py], with the properties the
    specification states about them.

    Conventions of the embedding:
    - a Keras tensor is used by the code only through its identity (as a
      dictionary key and in [in] tests), so a tensor is a [nat];
    - a layer is its identity together with the outcome of the two class
      tests the code performs on it ([isinstance(l, InputLayer)] and
      [kchecks.is_network(l)]);
    - a Python dictionary is a [gmap], a dictionary or set used only for
      membership is a [gset];
    - a raised Python exception is the left injection of a sum, carrying the
      exception class and its arguments;
    - [_print] only writes to the console and is left out. *)

From stdpp Require Import gmap strings list fin_maps.
From Stdlib Require Import ZArith.

#[local] Set Warnings "-clear-no-such-hyp,-register-all".

(** ** Exceptions and the error monad *)

Inductive LayerClass := InputLayer | Network | Primitive.

Record Layer := { layer_id : nat; layer_class : LayerClass }.

Global Instance LayerClass_eq_dec : EqDecision LayerClass.
Proof. solve_decision. Defined.

Global Instance Layer_eq_dec : EqDecision Layer.
Proof. solve_decision. Defined.

Definition LayerClass_code (c : LayerClass) : nat :=
  match c with InputLayer => 0 | Network => 1 | Primitive => 2 end.

Definition LayerClass_of_code (n : nat) : LayerClass :=
  match n with 0 => InputLayer | 1 => Network | _ => Primitive end.

Global Instance Layer_countable : Countable Layer.
Proof.
  refine (inj_countable'
            (fun l => (layer_id l, LayerClass_code (layer_class l)))
            (fun p => {| layer_id := fst p;
                         layer_class := LayerClass_of_code (snd p) |}) _).
  intros [i []]; reflexivity.
Defined.

(** The exceptions the code can raise: the explicit [raise] statements, the
    failing [assert], and the implicit ones of a failed dictionary lookup
    and of calling [None]. *)
Inductive PyError :=
| Exception (msg : string)
| NotImplementedError (arg1 arg2 : string)
| AssertionError
| KeyError_tensor (key : nat)
| KeyError_layer (key : Layer)
| KeyError_nid (key : option nat)
| TypeError (msg : string)
| ValueError (msg : string).

Definition bind {A B : Type} (m : PyError + A) (k : A -> PyError + B)
  : PyError + B :=
  match m with
  | inl e => inl e
  | inr a => k a
  end.

Notation "x <-- m ;; k" := (bind m (fun x => k))
  (at level 100, m at next level, right associativity).

Definition is_input_layer (l : Layer) : bool :=
  match layer_class l with InputLayer => true | _ => false end.

(** An entry of an execution list: [(layer, input_tensors, output_tensors)]. *)
Abbreviation ExecNode := (Layer * list nat * list nat)%type.

(** ** [trace_model_execution]: the filter of unused nodes *)

(** [all([y in used_as_input for y in Ys])] *)
Definition all_in (Ys used_as_input : list nat) : bool :=
  forallb (fun y => bool_decide (y ∈ used_as_input)) Ys.

(** One iteration of the loop of lines 675-678, on the pair
    [(used_as_input, tmp)]. *)
Definition filter_step (acc : list nat * list ExecNode) (node : ExecNode)
  : list nat * list ExecNode :=
  let '(used_as_input, tmp) := acc in
  let '(l, Xs, Ys) := node in
  if all_in Ys used_as_input
  then (used_as_input ++ Xs, tmp ++ [node])
  else (used_as_input, tmp).

(** Lines 673-679. *)
Definition filter_executed_nodes (outputs : list nat)
    (executed_nodes : list ExecNode) : list ExecNode :=
  let used_as_input := outputs in
  let tmp := [] in
  rev (snd (fold_left filter_step (rev executed_nodes) (used_as_input, tmp))).

(** What the Keras-facing part of [trace_model_execution] (either branch of
    lines 574-666) hands to the filter: the layers, the linearized list of
    executed nodes and the outputs. *)
Record Linearized := {
  lin_layers : list Layer;
  lin_executed_nodes : list ExecNode;
  lin_outputs : list nat
}.

Record Model := {
  model_inputs : list nat;
  model_outputs : list nat;
  model_linearized : Linearized
}.

Abbreviation ExecutionTrace :=
  (list Layer * list ExecNode * list nat)%type.

Definition trace_model_execution (model : Model) : ExecutionTrace :=
  let lin := model_linearized model in
  (lin_layers lin,
   filter_executed_nodes (lin_outputs lin) (lin_executed_nodes lin),
   lin_outputs lin).

(** ** [get_model_execution_trace]: node identifiers and lookups *)

Abbreviation IdNode := (option nat * Layer * list nat * list nat)%type.

(** Lines 723-730: [current_nid] counts the nodes that are not input
    layers; an input layer gets [None]. *)
Fixpoint enrich_with_nids (current_nid : nat) (execution_trace : list ExecNode)
  : list IdNode :=
  match execution_trace with
  | [] => []
  | (l, Xs, Ys) :: rest =>
      if is_input_layer l
      then (None, l, Xs, Ys) :: enrich_with_nids current_nid rest
      else (Some current_nid, l, Xs, Ys) :: enrich_with_nids (S current_nid) rest
  end.

(** Lines 740-745. *)
Definition record_inputs (nid : nat) (Xs : list nat)
    (inputs_to_node : gmap nat (list nat)) : gmap nat (list nat) :=
  fold_left
    (fun m Xid =>
       match m !! Xid with
       | Some nids => <[Xid := nids ++ [nid]]> m
       | None => <[Xid := [nid]]> m
       end)
    Xs inputs_to_node.

Definition duplicate_producer_msg : string :=
  "Cannot be more than one creating node."%string.

(** Lines 748-752. The membership test is made on [inputs_to_node]. *)
Fixpoint record_outputs (nid : option nat) (Ys : list nat)
    (inputs_to_node : gmap nat (list nat))
    (outputs_to_node : gmap nat (option nat))
  : PyError + gmap nat (option nat) :=
  match Ys with
  | [] => inr outputs_to_node
  | Yid :: rest =>
      match inputs_to_node !! Yid with
      | Some _ => inl (Exception duplicate_producer_msg)
      | None =>
          record_outputs nid rest inputs_to_node (<[Yid := nid]> outputs_to_node)
      end
  end.

(** Lines 736-752. *)
Fixpoint create_lookups (keep_input_layers : bool) (id_execution_trace : list IdNode)
    (inputs_to_node : gmap nat (list nat))
    (outputs_to_node : gmap nat (option nat))
  : PyError + (gmap nat (list nat) * gmap nat (option nat)) :=
  match id_execution_trace with
  | [] => inr (inputs_to_node, outputs_to_node)
  | (nid, _l, Xs, Ys) :: rest =>
      let inputs_to_node :=
        match nid with
        | Some n => record_inputs n Xs inputs_to_node
        | None => inputs_to_node
        end in
      outputs_to_node <--
        (if keep_input_layers || bool_decide (is_Some nid)
         then record_outputs nid Ys inputs_to_node outputs_to_node
         else inr outputs_to_node) ;;
      create_lookups keep_input_layers rest inputs_to_node outputs_to_node
  end.

(** The dictionary returned for each node (type [NodeDict]); field [nd_k]
    is the entry of key [k]. *)
Record NodeDict := {
  nd_nid : option nat;
  nd_layer : Layer;
  nd_Xs : list nat;
  nd_Ys : list nat;
  nd_Xs_nids : list (option nat);
  nd_Ys_nids : list (list (option nat));
  nd_Xs_layers : list Layer;
  nd_Ys_layers : list (list Layer)
}.

(** [nid_to_nodes = {t[0]: t for t in id_execution_trace}], line 764. *)
Definition make_nid_to_nodes (id_execution_trace : list IdNode)
  : gmap (option nat) IdNode :=
  fold_left (fun m t => <[fst (fst (fst t)) := t]> m) id_execution_trace ∅.

Fixpoint map_err {A B : Type} (f : A -> PyError + B) (l : list A)
  : PyError + list B :=
  match l with
  | [] => inr []
  | a :: rest => b <-- f a ;; bs <-- map_err f rest ;; inr (b :: bs)
  end.

Definition layer_of_nid (nid_to_nodes : gmap (option nat) IdNode)
    (n : option nat) : PyError + Layer :=
  match nid_to_nodes !! n with
  | Some t => inr (snd (fst (fst t)))
  | None => inl (KeyError_nid n)
  end.

(** Lines 767-799, one entry. *)
Definition make_entry (inputs_to_node : gmap nat (list nat))
    (outputs_to_node : gmap nat (option nat))
    (nid_to_nodes : gmap (option nat) IdNode) (t : IdNode)
  : PyError + NodeDict :=
  let '(nid, l, Xs, Ys) := t in
  if is_input_layer l then
    Ys_nids <-- map_err (fun Y => match inputs_to_node !! Y with
                                   | Some nids => inr (map Some nids)
                                   | None => inl (KeyError_tensor Y)
                                   end) Ys ;;
    Ys_layers <-- map_err (map_err (layer_of_nid nid_to_nodes)) Ys_nids ;;
    inr {| nd_nid := nid; nd_layer := l; nd_Xs := Xs; nd_Ys := Ys;
           nd_Xs_nids := []; nd_Ys_nids := Ys_nids;
           nd_Xs_layers := []; nd_Ys_layers := Ys_layers |}
  else
    let Xs_nids := map (fun X => default None (outputs_to_node !! X)) Xs in
    let Ys_nids := map (fun Y => match inputs_to_node !! Y with
                                 | Some nids => map Some nids
                                 | None => [None]
                                 end) Ys in
    let not_none := filter (fun n : option nat => is_Some n) in
    Xs_layers <-- map_err (layer_of_nid nid_to_nodes) (not_none Xs_nids) ;;
    Ys_layers <-- map_err (fun Ynids2 =>
                             map_err (layer_of_nid nid_to_nodes) (not_none Ynids2))
                          Ys_nids ;;
    inr {| nd_nid := nid; nd_layer := l; nd_Xs := Xs; nd_Ys := Ys;
           nd_Xs_nids := Xs_nids; nd_Ys_nids := Ys_nids;
           nd_Xs_layers := Xs_layers; nd_Ys_layers := Ys_layers |}.

(** Lines 710-806. *)
Definition get_model_execution_trace (model : Model) (keep_input_layers : bool)
  : PyError + list NodeDict :=
  let '(_, execution_trace, _) := trace_model_execution model in
  let id_execution_trace := enrich_with_nids 0 execution_trace in
  lookups <-- create_lookups keep_input_layers id_execution_trace ∅ ∅ ;;
  let '(inputs_to_node, outputs_to_node) := lookups in
  let nid_to_nodes := make_nid_to_nodes id_execution_trace in
  model_execution_trace <--
    map_err (make_entry inputs_to_node outputs_to_node nid_to_nodes)
            id_execution_trace ;;
  if keep_input_layers
  then inr model_execution_trace
  else inr (filter (fun tmp => is_Some (nd_nid tmp)) model_execution_trace).

(** ** [get_bottleneck_nodes] and [get_bottleneck_tensors] *)

(** Lines 902-906: [forward_connections[x] += Ys], or a fresh copy of [Ys]
    for a new key. *)
Definition connect_inputs (Xs Ys : list nat)
    (forward_connections : gmap nat (list nat)) : gmap nat (list nat) :=
  fold_left
    (fun fc x =>
       match fc !! x with
       | Some old => <[x := old ++ Ys]> fc
       | None => <[x := Ys]> fc
       end)
    Xs forward_connections.

(** Lines 896-906. *)
Definition make_forward_connections (execution_list : list ExecNode)
  : gmap nat (list nat) :=
  fold_left
    (fun fc node =>
       let '(l, Xs, Ys) := node in
       if is_input_layer l then fc else connect_inputs Xs Ys fc)
    execution_list ∅.

(** [for fw_c in forward_connections[X]: open_connections[fw_c] = True];
    the lookup raises [KeyError] on a missing key. The dictionary
    [open_connections] only ever holds [True], so it is a set of keys. *)
Definition open_forward (forward_connections : gmap nat (list nat)) (X : nat)
    (open_connections : gset nat) : PyError + gset nat :=
  match forward_connections !! X with
  | Some fw => inr (open_connections ∪ list_to_set fw)
  | None => inl (KeyError_tensor X)
  end.

(** Lines 908-911. *)
Fixpoint open_inputs (forward_connections : gmap nat (list nat))
    (inputs : list nat) (open_connections : gset nat) : PyError + gset nat :=
  match inputs with
  | [] => inr open_connections
  | X :: rest =>
      oc <-- open_forward forward_connections X open_connections ;;
      open_inputs forward_connections rest oc
  end.

(** Lines 921-923: [assert Y in open_connections; del open_connections[Y]]. *)
Fixpoint close_outputs (Ys : list nat) (open_connections : gset nat)
  : PyError + gset nat :=
  match Ys with
  | [] => inr open_connections
  | Y :: rest =>
      if bool_decide (Y ∈ open_connections)
      then close_outputs rest (open_connections ∖ {[Y]})
      else inl AssertionError
  end.

(** Lines 928-931. *)
Fixpoint reopen_outputs (forward_connections : gmap nat (list nat))
    (outputs Ys : list nat) (open_connections : gset nat)
  : PyError + gset nat :=
  match Ys with
  | [] => inr open_connections
  | Y :: rest =>
      oc <-- (if bool_decide (Y ∈ outputs)
              then inr open_connections
              else open_forward forward_connections Y open_connections) ;;
      reopen_outputs forward_connections outputs rest oc
  end.

Abbreviation BottleneckNode := (Layer * (list nat * list nat))%type.

(** Lines 913-931: the loop over [execution_list], on the pair
    [(open_connections, ret)]. *)
Fixpoint bottleneck_loop (forward_connections : gmap nat (list nat))
    (outputs : list nat) (execution_list : list ExecNode)
    (open_connections : gset nat) (ret : list BottleneckNode)
  : PyError + list BottleneckNode :=
  match execution_list with
  | [] => inr ret
  | (l, Xs, Ys) :: rest =>
      if is_input_layer l
      then bottleneck_loop forward_connections outputs rest open_connections ret
      else
        oc <-- close_outputs Ys open_connections ;;
        let ret := if bool_decide (size oc = 0)
                   then ret ++ [(l, (Xs, Ys))] else ret in
        oc <-- reopen_outputs forward_connections outputs Ys oc ;;
        bottleneck_loop forward_connections outputs rest oc ret
  end.

(** Lines 882-933. *)
Definition get_bottleneck_nodes (inputs outputs : list nat)
    (execution_list : list ExecNode) : PyError + list BottleneckNode :=
  let forward_connections := make_forward_connections execution_list in
  open_connections <-- open_inputs forward_connections inputs ∅ ;;
  bottleneck_loop forward_connections outputs execution_list open_connections [].

(** Lines 951-955, for one tensor list. *)
Definition add_single_tensor (tensor_list : list nat) (ret : list nat)
  : list nat :=
  match tensor_list with
  | [tensor] => if bool_decide (tensor ∈ ret) then ret else ret ++ [tensor]
  | _ => ret
  end.

(** Lines 936-959. *)
Definition get_bottleneck_tensors (inputs outputs : list nat)
    (execution_list : list ExecNode) : PyError + list nat :=
  nodes <-- get_bottleneck_nodes inputs outputs execution_list ;;
  inr (fold_left
         (fun ret node =>
            let '(_l, (Xs, Ys)) := node in
            add_single_tensor Ys (add_single_tensor Xs ret))
         nodes []).

(** ** [reverse_model] *)

(** An argument that is [False], [True] or a pair of bounds
    ([clip_all_reversed_tensors], [project_bottleneck_tensors]). *)
Inductive BoolOrRange (Num : Type) :=
| IsBool (b : bool)
| IsRange (lo hi : Num).
Arguments IsBool {Num} b.
Arguments IsRange {Num} lo hi.

(** [arg is True] *)
Definition is_True {Num} (arg : BoolOrRange Num) : bool :=
  match arg with IsBool true => true | _ => false end.

(** [arg is not False] *)
Definition is_not_False {Num} (arg : BoolOrRange Num) : bool :=
  match arg with IsBool false => false | _ => true end.

(** Truth value of [arg] in an [if]: a pair is a non-empty tuple. *)
Definition truthy {Num} (arg : BoolOrRange Num) : bool :=
  match arg with IsBool b => b | IsRange _ _ => true end.

(** An entry of [reversed_tensors] (type [ReverseTensorDict]); the key
    ["id"] is the field [id_]. *)
Record ReverseTensorDict (V : Type) := {
  id_ : Z * nat;
  tensor : option V;
  tensors : option (list V);
  final_tensor : option V
}.
Arguments id_ {V} _.
Arguments tensor {V} _.
Arguments tensors {V} _.
Arguments final_tensor {V} _.

(** The dictionary handed to a reverse mapping as [reverse_state]. *)
Record ReverseState := {
  rs_nid : Z;
  rs_model : Model;
  rs_layer : Layer;
  rs_stop_mapping_at_tensors : list nat
}.

(** A mapping of form (A): [f(Xs, Ys, reversed_Ys, reverse_state)]. *)
Definition ReverseMapping (V : Type) : Type :=
  list nat -> list nat -> list V -> ReverseState -> list V.

(** What [reverse_mappings(layer)] may return besides [None]: a
    [ReverseMappingBase] subclass (given by the [apply] of its instance), a
    two-parameter function returning a mapping, or a mapping. *)
Inductive MetaMapping (V : Type) :=
| MappingClass (apply : Model -> Layer -> ReverseMapping V)
| MappingFactory (f : Model -> Layer -> ReverseMapping V)
| MappingFunction (f : ReverseMapping V).
Arguments MappingClass {V} apply.
Arguments MappingFactory {V} f.
Arguments MappingFunction {V} f.

(** The value returned by [reverse_model]. *)
Inductive Reversed (V : Type) :=
| ReversedInputs (reversed_input_tensors : list V)
| ReversedAll (reversed_input_tensors : list V)
              (reversed_tensors : gmap nat (ReverseTensorDict V)).
Arguments ReversedInputs {V} _.
Arguments ReversedAll {V} _ _.

Definition reversed_inputs_of {V} (r : Reversed V) : list V :=
  match r with
  | ReversedInputs l => l
  | ReversedAll l _ => l
  end.

Definition wrong_order_msg : string :=
  "Wrong order, tensors already aggregated!"%string.
Definition aggregation_msg : string :=
  "Error during reverse tensor aggeregation."%string.
Definition network_msg : string :=
  "This is not supposed to happen!"%string.
Definition none_not_callable_msg : string :=
  "'NoneType' object is not callable"%string.
Definition merge_msg : string :=
  "A merge layer should be called on a list of inputs."%string.
Definition clip_msg1 : string :=
  "Keyword argument `clip_all_reversed_tensors` "%string.
Definition clip_msg2 : string :=
  "expected to be `False` or tuple with min/max values."%string.

Section Reversal.

(** The tensor algebra is external: values of reversed tensors, the bounds
    of ranges, [keras.layers.Add()] on a list, [ilayers.Project(arg)] and
    [ilayers.Clip(lo, hi)]; [forward_value X] is the forward tensor [X]
    used as a value, which is what the default [head_mapping] returns. *)
Context {V Num : Type}.
Variable Add : list V -> V.
Variable Project : BoolOrRange Num -> V -> V.
Variable Clip : Num -> Num -> V -> V.
Variable forward_value : nat -> V.

Section Closures.

(** The variables of [reverse_model] that its two inner functions read. *)
Variable stop_mapping_at_tensors : list nat.
Variable clip_all_reversed_tensors : BoolOrRange Num.
Variable project_bottleneck_tensors : BoolOrRange Num.
Variable bottleneck_tensors : gset nat.

(** Lines 1063-1084. *)
Definition add_reversed_tensor (nid : Z) (i : nat) (X : nat) (reversed_X : V)
    (reversed_tensors : gmap nat (ReverseTensorDict V))
  : PyError + gmap nat (ReverseTensorDict V) :=
  if bool_decide (X ∈ stop_mapping_at_tensors) then inr reversed_tensors
  else
    match reversed_tensors !! X with
    | None =>
        inr (<[X := {| id_ := (nid, i); tensor := Some reversed_X;
                       tensors := None; final_tensor := None |}]>
               reversed_tensors)
    | Some tmp =>
        match tensor tmp with
        | Some t =>
            match tensors tmp with
            | Some _ => inl (Exception wrong_order_msg)
            | None =>
                inr (<[X := {| id_ := id_ tmp; tensor := None;
                               tensors := Some [t; reversed_X];
                               final_tensor := final_tensor tmp |}]>
                       reversed_tensors)
            end
        | None => inl (Exception aggregation_msg)
        end
    end.

(** Lines 1086-1088: the loop over [enumerate(zip(...))], from index [i]. *)
Fixpoint add_reversed_tensors_from (nid : Z) (i : nat)
    (tensors_list : list nat) (reversed_tensors_list : list V)
    (reversed_tensors : gmap nat (ReverseTensorDict V))
  : PyError + gmap nat (ReverseTensorDict V) :=
  match tensors_list, reversed_tensors_list with
  | X :: tl, reversed_X :: rl =>
      rt <-- add_reversed_tensor nid i X reversed_X reversed_tensors ;;
      add_reversed_tensors_from nid (S i) tl rl rt
  | _, _ => inr reversed_tensors
  end.

(** Lines 1062-1088. *)
Definition add_reversed_tensors (nid : Z) (tensors_list : list nat)
    (reversed_tensors_list : list V)
    (reversed_tensors : gmap nat (ReverseTensorDict V))
  : PyError + gmap nat (ReverseTensorDict V) :=
  add_reversed_tensors_from nid 0 tensors_list reversed_tensors_list
                            reversed_tensors.

(** Lines 1095-1107: the value stored as [final_tensor]. *)
Definition finalize (t : nat) (tmp : ReverseTensorDict V) : PyError + V :=
  base <-- match tensor tmp with
           | None =>
               match tensors tmp with
               | Some ts => inr (Add ts)
               | None => inl (ValueError merge_msg)
               end
           | Some v => inr v
           end ;;
  let projected :=
    if is_not_False project_bottleneck_tensors
    then if bool_decide (t ∈ bottleneck_tensors)
         then Project project_bottleneck_tensors base
         else base
    else base in
  inr match clip_all_reversed_tensors with
      | IsRange lo hi => Clip lo hi projected
      | IsBool _ => projected
      end.

(** Lines 1090-1111. *)
Definition get_reversed_tensor (t : nat)
    (reversed_tensors : gmap nat (ReverseTensorDict V))
  : PyError + (V * gmap nat (ReverseTensorDict V)) :=
  match reversed_tensors !! t with
  | None => inl (KeyError_tensor t)
  | Some tmp =>
      match final_tensor tmp with
      | Some f => inr (f, reversed_tensors)
      | None =>
          f <-- finalize t tmp ;;
          inr (f, <[t := {| id_ := id_ tmp; tensor := tensor tmp;
                            tensors := tensors tmp;
                            final_tensor := Some f |}]> reversed_tensors)
      end
  end.

(** [[get_reversed_tensor(t) for t in ts]] *)
Fixpoint get_reversed_tensors (ts : list nat)
    (reversed_tensors : gmap nat (ReverseTensorDict V))
  : PyError + (list V * gmap nat (ReverseTensorDict V)) :=
  match ts with
  | [] => inr ([], reversed_tensors)
  | t :: rest =>
      r <-- get_reversed_tensor t reversed_tensors ;;
      rs <-- get_reversed_tensors rest (snd r) ;;
      inr (fst r :: fst rs, snd rs)
  end.

Variable model : Model.
Variable initialized_reverse_mappings : gmap Layer (option (ReverseMapping V)).
Variable len_execution_list_wo_inputs_layers : nat.

(** Line 1197: [nid = len_execution_list_wo_inputs_layers - _nid - 1]. *)
Definition walk_nid (_nid : nat) : Z :=
  (Z.of_nat len_execution_list_wo_inputs_layers - Z.of_nat _nid - 1)%Z.

(** Lines 1197-1232: the body of the loop for the entry
    [(_nid, (layer, Xs, Ys))] of the enumeration. *)
Definition reverse_node (_nid : nat) (node : ExecNode)
    (reversed_tensors : gmap nat (ReverseTensorDict V))
  : PyError + gmap nat (ReverseTensorDict V) :=
  let '(layer, Xs, Ys) := node in
  let nid := walk_nid _nid in
  match layer_class layer with
  | InputLayer => inr reversed_tensors
  | Network => inl (Exception network_msg)
  | Primitive =>
      if negb (forallb (fun ys => bool_decide (is_Some (reversed_tensors !! ys))) Ys)
      then inr reversed_tensors
      else
        r <-- get_reversed_tensors Ys reversed_tensors ;;
        let reversed_Ys := fst r in
        let reversed_tensors := snd r in
        let local_stop_mapping_at_tensors :=
          filter (fun x => x ∈ stop_mapping_at_tensors) Xs in
        match initialized_reverse_mappings !! layer with
        | None => inl (KeyError_layer layer)
        | Some None => inl (TypeError none_not_callable_msg)
        | Some (Some reverse_mapping) =>
            let reversed_Xs :=
              reverse_mapping Xs Ys reversed_Ys
                {| rs_nid := nid; rs_model := model; rs_layer := layer;
                   rs_stop_mapping_at_tensors :=
                     local_stop_mapping_at_tensors |} in
            add_reversed_tensors nid Xs reversed_Xs reversed_tensors
        end
  end.

(** Lines 1196-1232: the loop over
    [enumerate(reverse_execution_list)], from index [_nid]. *)
Fixpoint reverse_nodes_from (_nid : nat) (reverse_execution_list : list ExecNode)
    (reversed_tensors : gmap nat (ReverseTensorDict V))
  : PyError + gmap nat (ReverseTensorDict V) :=
  match reverse_execution_list with
  | [] => inr reversed_tensors
  | node :: rest =>
      rt <-- reverse_node _nid node reversed_tensors ;;
      reverse_nodes_from (S _nid) rest rt
  end.

End Closures.

(** Lines 1137-1183: the mapping of one layer. *)
Definition initialize_reverse_mapping (model : Model)
    (reverse_mappings : Layer -> option (MetaMapping V))
    (default_reverse_mapping : option (ReverseMapping V)) (layer : Layer)
  : option (ReverseMapping V) :=
  match reverse_mappings layer with
  | None => default_reverse_mapping
  | Some (MappingClass apply) => Some (apply model layer)
  | Some (MappingFactory f) => Some (f model layer)
  | Some (MappingFunction f) => Some f
  end.

(** Lines 1131-1185. *)
Definition initialize_reverse_mappings (model : Model)
    (reverse_mappings : Layer -> option (MetaMapping V))
    (default_reverse_mapping : option (ReverseMapping V)) (layers : list Layer)
  : gmap Layer (option (ReverseMapping V)) :=
  fold_left
    (fun m layer =>
       <[layer := initialize_reverse_mapping model reverse_mappings
                    default_reverse_mapping layer]> m)
    layers ∅.

(** [len([_ for l, _, _ in execution_list if isinstance(l, InputLayer)])] *)
Definition num_input_layers (execution_list : list ExecNode) : nat :=
  length (filter (fun node => is_input_layer (fst (fst node)) = true)
                 execution_list).

(** The arguments of [reverse_model], with the defaults of lines 1027-1043
    already applied to [reverse_mappings] (a dictionary is wrapped into the
    function that looks the type of the layer up). *)
Record ReverseArgs := {
  reverse_mappings : Layer -> option (MetaMapping V);
  default_reverse_mapping : option (ReverseMapping V);
  head_mapping : option (nat -> V);
  stop_mapping_at_tensors_arg : option (list nat);
  return_all_reversed_tensors : bool;
  clip_all_reversed_tensors_arg : BoolOrRange Num;
  project_bottleneck_tensors_arg : BoolOrRange Num;
  execution_trace_arg : option ExecutionTrace
}.

(** Lines 1027-1028. *)
Definition stop_of (args : ReverseArgs) : list nat :=
  default [] (stop_mapping_at_tensors_arg args).

(** Lines 1030-1033. *)
Definition head_of (args : ReverseArgs) : nat -> V :=
  default forward_value (head_mapping args).

(** Lines 1117-1121. *)
Definition trace_of (model : Model) (args : ReverseArgs) : ExecutionTrace :=
  match execution_trace_arg args with
  | None => trace_model_execution model
  | Some t => t
  end.

(** Lines 1187-1190. *)
Definition bottleneck_tensors_of (model : Model) (args : ReverseArgs)
  : PyError + gset nat :=
  let '(_, execution_list, outputs) := trace_of model args in
  if truthy (project_bottleneck_tensors_arg args)
  then ts <-- get_bottleneck_tensors (model_inputs model) outputs execution_list ;;
       inr (list_to_set ts)
  else inr ∅.

(** Lines 1045-1232: everything up to the end of the loop over the
    reversed execution list; the result is [reversed_tensors] together
    with the set [bottleneck_tensors]. The first [n] entries of the
    reversed list are processed ([n] is its length in [reverse_model]). *)
Definition reverse_walk (n : nat) (model : Model) (args : ReverseArgs)
  : PyError + (gset nat * gmap nat (ReverseTensorDict V)) :=
  if is_True (clip_all_reversed_tensors_arg args)
  then inl (NotImplementedError clip_msg1 clip_msg2)
  else
    let '(layers, execution_list, outputs) := trace_of model args in
    let len_execution_list := length execution_list in
    let len_execution_list_wo_inputs_layers :=
      len_execution_list - num_input_layers execution_list in
    let reverse_execution_list := rev execution_list in
    let initialized_reverse_mappings :=
      initialize_reverse_mappings model (reverse_mappings args)
        (default_reverse_mapping args) layers in
    bottleneck_tensors <-- bottleneck_tensors_of model args ;;
    rt <-- add_reversed_tensors (stop_of args) (-1) outputs
             (map (head_of args) outputs) ∅ ;;
    rt <-- reverse_nodes_from (stop_of args)
             (clip_all_reversed_tensors_arg args)
             (project_bottleneck_tensors_arg args) bottleneck_tensors
             model initialized_reverse_mappings
             len_execution_list_wo_inputs_layers
             0 (take n reverse_execution_list) rt ;;
    inr (bottleneck_tensors, rt).

(** [[tmp for tmp in model.inputs if tmp not in stop_mapping_at_tensors]] *)
Definition returned_inputs (model : Model) (args : ReverseArgs) : list nat :=
  filter (fun tmp => tmp ∉ stop_of args) (model_inputs model).

(** Lines 980-1243. *)
Definition reverse_model (model : Model) (args : ReverseArgs)
  : PyError + Reversed V :=
  let '(_, execution_list, _) := trace_of model args in
  st <-- reverse_walk (length execution_list) model args ;;
  r <-- get_reversed_tensors (clip_all_reversed_tensors_arg args)
          (project_bottleneck_tensors_arg args) (fst st)
          (returned_inputs model args) (snd st) ;;
  let reversed_input_tensors := fst r in
  let reversed_tensors := snd r in
  if return_all_reversed_tensors args
  then inr (ReversedAll reversed_input_tensors reversed_tensors)
  else inr (ReversedInputs reversed_input_tensors).

End Reversal.

(** ** The pruning pass as the specification words it *)

(** One reverse linear scan: the records after the current one are scanned
    first; the result is the set of tensors marked needed and the records
    kept, in forward order. *)
Fixpoint reverse_scan (outputs : list nat) (records : list ExecNode)
  : gset nat * list ExecNode :=
  match records with
  | [] => (list_to_set outputs, [])
  | (l, Xs, Ys) :: later =>
      let '(needed, kept) := reverse_scan outputs later in
      if bool_decide (Forall (fun y => y ∈ needed) Ys)
      then (needed ∪ list_to_set Xs, (l, Xs, Ys) :: kept)
      else (needed, kept)
  end.

(** ** The bottleneck detection as the specification words it *)

(** Forward adjacency: a tensor is sent to the outputs of every record that
    consumes it (input-producing records are skipped). *)
Definition forward_adjacency (execution_list : list ExecNode) (t : nat)
  : gset nat :=
  list_to_set
    (flat_map
       (fun node : ExecNode =>
          let '(l, Xs, Ys) := node in
          if is_input_layer l then []
          else if bool_decide (t ∈ Xs) then Ys else [])
       execution_list).

(** Expansion of a list of tensors through an adjacency. *)
Definition expand (adj : nat -> gset nat) (ts : list nat) : gset nat :=
  ⋃ (adj <$> ts).

(** Walk of the records in forward order with the open frontier: a record
    that is not input-producing is a bottleneck when the frontier is empty
    once its outputs are removed; the frontier is then expanded through the
    outputs of the record that are not declared outputs. *)
Fixpoint frontier_walk (adj : nat -> gset nat) (outputs : list nat)
    (records : list ExecNode) (frontier : gset nat) : list BottleneckNode :=
  match records with
  | [] => []
  | (l, Xs, Ys) :: rest =>
      if is_input_layer l then frontier_walk adj outputs rest frontier
      else
        let removed := frontier ∖ list_to_set Ys in
        let reopened :=
          removed ∪ expand adj (filter (fun y => y ∉ outputs) Ys) in
        (if bool_decide (removed = ∅) then [(l, (Xs, Ys))] else [])
          ++ frontier_walk adj outputs rest reopened
  end.

(** A tensor is consumed when it is an input of a record that is not
    input-producing. *)
Definition consumed (execution_list : list ExecNode) (t : nat) : Prop :=
  Exists (fun node : ExecNode =>
            let '(l, Xs, _) := node in is_input_layer l = false /\ t ∈ Xs)
         execution_list.

(** The requirements of the walk: the outputs of the current record are
    distinct tensors of the open frontier, and those through which the
    frontier is expanded are consumed by some record. *)
Fixpoint frontier_walk_ok (execution_list : list ExecNode)
    (adj : nat -> gset nat) (outputs : list nat)
    (records : list ExecNode) (frontier : gset nat) : Prop :=
  match records with
  | [] => True
  | (l, Xs, Ys) :: rest =>
      if is_input_layer l
      then frontier_walk_ok execution_list adj outputs rest frontier
      else
        NoDup Ys /\ Forall (fun y => y ∈ frontier) Ys /\
        Forall (consumed execution_list) (filter (fun y => y ∉ outputs) Ys) /\
        frontier_walk_ok execution_list adj outputs rest
          (frontier ∖ list_to_set Ys
           ∪ expand adj (filter (fun y => y ∉ outputs) Ys))
  end.

Definition bottleneck_records (inputs outputs : list nat)
    (execution_list : list ExecNode) : list BottleneckNode :=
  let adj := forward_adjacency execution_list in
  frontier_walk adj outputs execution_list (expand adj inputs).

(** The set of tensors a dictionary of forward connections sends [t] to. *)
Definition connections_of (forward_connections : gmap nat (list nat)) (t : nat)
  : gset nat :=
  match forward_connections !! t with
  | Some fw => list_to_set fw
  | None => ∅
  end.

(** ** Invariants of [reversed_tensors] *)

(** An entry holds either a single pending tensor or an aggregated list. *)
Definition entry_ok {V} (e : ReverseTensorDict V) : Prop :=
  match tensor e, tensors e with
  | Some _, None => True
  | None, Some _ => True
  | _, _ => False
  end.

(** No tensor of the stop list is a key, and every entry is well formed. *)
Definition good {V} (stop_mapping_at_tensors : list nat)
    (reversed_tensors : gmap nat (ReverseTensorDict V)) : Prop :=
  (forall t, t ∈ stop_mapping_at_tensors -> reversed_tensors !! t = None) /\
  (forall t e, reversed_tensors !! t = Some e -> entry_ok e).

(** The tensor [t] is finalized with value [v]. *)
Definition finalized {V} (reversed_tensors : gmap nat (ReverseTensorDict V))
    (t : nat) (v : V) : Prop :=
  exists e, reversed_tensors !! t = Some e /\ final_tensor e = Some v.

Section ReversedValue.

Context {V Num : Type}.
Variable Add : list V -> V.
Variable Project : BoolOrRange Num -> V -> V.
Variable Clip : Num -> Num -> V -> V.

(** The value [get_reversed_tensor] returns for [t] in a given state of
    [reversed_tensors], when it returns one. *)
Definition reversed_value (clip_all_reversed_tensors : BoolOrRange Num)
    (project_bottleneck_tensors : BoolOrRange Num)
    (bottleneck_tensors : gset nat) (t : nat)
    (reversed_tensors : gmap nat (ReverseTensorDict V)) : option V :=
  match reversed_tensors !! t with
  | None => None
  | Some tmp =>
      match final_tensor tmp with
      | Some f => Some f
      | None =>
          match finalize Add Project Clip clip_all_reversed_tensors
                  project_bottleneck_tensors bottleneck_tensors t tmp with
          | inr f => Some f
          | inl _ => None
          end
      end
  end.

End ReversedValue.

(** The layers and the execution list that [reverse_model] works on. *)
Definition layers_of {V Num} (model : Model) (args : @ReverseArgs V Num)
  : list Layer :=
  fst (fst (trace_of model args)).

Definition execution_list_of {V Num} (model : Model) (args : @ReverseArgs V Num)
  : list ExecNode :=
  snd (fst (trace_of model args)).

(** The layer an exception value carries, if it carries one. *)
Definition error_layer (e : PyError) : option Layer :=
  match e with
  | KeyError_layer l => Some l
  | _ => None
  end.

(** ** Concrete runs

    Scalar tensors: a value is an integer, [Add] sums a list, [Clip] clamps
    to a range and [Project] clamps to the given range. *)

Definition zAdd (l : list Z) : Z := fold_right Z.add 0%Z l.

Definition zClip (lo hi v : Z) : Z := Z.max lo (Z.min hi v).

Definition zProject (arg : BoolOrRange Z) (v : Z) : Z :=
  match arg with
  | IsRange lo hi => zClip lo hi v
  | IsBool _ => v
  end.

Definition prim (n : nat) : Layer := {| layer_id := n; layer_class := Primitive |}.

Definition inp (n : nat) : Layer := {| layer_id := n; layer_class := InputLayer |}.

(** A reverse mapping that hands the sum of the reversed outputs to every
    input. *)
Definition pass_sum : ReverseMapping Z :=
  fun Xs Ys reversed_Ys reverse_state => map (fun _ => zAdd reversed_Ys) Xs.

(** A reverse mapping that hands the node id it is called with to every
    input. *)
Definition pass_nid : ReverseMapping Z :=
  fun Xs Ys reversed_Ys reverse_state => map (fun _ => rs_nid reverse_state) Xs.

Definition flat_model (inputs outputs : list nat) (nodes : list ExecNode)
  : Model :=
  {| model_inputs := inputs; model_outputs := outputs;
     model_linearized :=
       {| lin_layers := map (fun node : ExecNode => fst (fst node)) nodes;
          lin_executed_nodes := nodes;
          lin_outputs := outputs |} |}.

(** Default arguments, with a reverse mapping for every layer and the head
    mapping that seeds every output with [1]. *)
Definition plain_args (mapping : ReverseMapping Z) : @ReverseArgs Z Z :=
  {| reverse_mappings := fun _ => Some (MappingFunction mapping);
     default_reverse_mapping := None;
     head_mapping := Some (fun _ => 1%Z);
     stop_mapping_at_tensors_arg := None;
     return_all_reversed_tensors := false;
     clip_all_reversed_tensors_arg := IsBool false;
     project_bottleneck_tensors_arg := IsBool false;
     execution_trace_arg := None |}.

(** Input 0, a layer producing tensor 1, three layers consuming tensor 1,
    a layer merging their outputs into the model output 5. *)
Definition fan_out3_model : Model :=
  flat_model [0] [5]
    [(inp 0, [0], [0]); (prim 1, [0], [1]);
     (prim 2, [1], [2]); (prim 3, [1], [3]); (prim 4, [1], [4]);
     (prim 5, [2; 3; 4], [5])].

(** The same with two consumers of tensor 1. *)
Definition fan_out2_model : Model :=
  flat_model [0] [5]
    [(inp 0, [0], [0]); (prim 1, [0], [1]);
     (prim 2, [1], [2]); (prim 3, [1], [3]);
     (prim 5, [2; 3], [5])].

(** A caller-supplied execution trace in which the consumer of tensor 1
    stands before its producer; tensors 1 and 2 are outputs. *)
Definition misordered_model : Model :=
  flat_model [0] [1; 2] [].

Definition misordered_args : @ReverseArgs Z Z :=
  {| reverse_mappings := fun _ => Some (MappingFunction pass_sum);
     default_reverse_mapping := None;
     head_mapping := Some (fun t => Z.of_nat (10 * t));
     stop_mapping_at_tensors_arg := None;
     return_all_reversed_tensors := true;
     clip_all_reversed_tensors_arg := IsBool false;
     project_bottleneck_tensors_arg := IsBool false;
     execution_trace_arg :=
       Some ([prim 2; prim 1],
             [(prim 2, [1], [2]); (prim 1, [0], [1])],
             [1; 2]) |}.

(** Two inputs, the second one joining after the first layer:
    input 0 -> layer 11 -> tensor 1; layer 13 takes tensor 1 and input 2;
    layer 14 produces the output 4. *)
Definition late_input_model : Model :=
  flat_model [0; 2] [4]
    [(inp 10, [0], [0]); (prim 11, [0], [1]); (inp 12, [2], [2]);
     (prim 13, [1; 2], [3]); (prim 14, [3], [4])].

Definition late_input_args : @ReverseArgs Z Z :=
  {| reverse_mappings := fun _ => Some (MappingFunction pass_nid);
     default_reverse_mapping := None;
     head_mapping := Some (fun _ => 1%Z);
     stop_mapping_at_tensors_arg := None;
     return_all_reversed_tensors := true;
     clip_all_reversed_tensors_arg := IsBool false;
     project_bottleneck_tensors_arg := IsBool false;
     execution_trace_arg := None |}.

(** Two kept records producing the same tensor 1. *)
Definition duplicate_producer_model : Model :=
  flat_model [0] [1] [(prim 1, [0], [1]); (prim 2, [0], [1])].

(** Every tensor has one producer, but tensor 1 is consumed by the record
    standing before its producer. *)
Definition consumer_first_model : Model :=
  flat_model [0] [2; 1] [(prim 2, [1], [2]); (prim 1, [0], [1])].

(** The chain input 0 -> layer 1 -> tensor 1 -> layer 2 -> output 2. *)
Definition chain_model : Model :=
  flat_model [0] [2] [(inp 0, [0], [0]); (prim 1, [0], [1]); (prim 2, [1], [2])].

(** Reversal of the chain stopped at the intermediate tensor 1. *)
Definition stop_chain_args : @ReverseArgs Z Z :=
  {| reverse_mappings := fun _ => Some (MappingFunction pass_sum);
     default_reverse_mapping := None;
     head_mapping := None;
     stop_mapping_at_tensors_arg := Some [1];
     return_all_reversed_tensors := false;
     clip_all_reversed_tensors_arg := IsBool false;
     project_bottleneck_tensors_arg := IsBool false;
     execution_trace_arg := None |}.

(** Two inputs feeding one layer; the input 1 is in the stop list. *)
Definition two_inputs_model : Model :=
  flat_model [0; 1] [2]
    [(inp 0, [0], [0]); (inp 1, [1], [1]); (prim 2, [0; 1], [2])].

Definition stop_input_args : @ReverseArgs Z Z :=
  {| reverse_mappings := fun _ => Some (MappingFunction pass_sum);
     default_reverse_mapping := None;
     head_mapping := Some (fun _ => 7%Z);
     stop_mapping_at_tensors_arg := Some [1];
     return_all_reversed_tensors := true;
     clip_all_reversed_tensors_arg := IsBool false;
     project_bottleneck_tensors_arg := IsBool false;
     execution_trace_arg := None |}.


(** A network used as a layer in the execution list, which makes the walk
    raise, and [clip_all_reversed_tensors=True]. *)
Definition clip_True_model : Model :=
  flat_model [0] [1] [({| layer_id := 1; layer_class := Network |}, [0], [1])].

Definition clip_True_args : @ReverseArgs Z Z :=
  {| reverse_mappings := fun _ => None;
     default_reverse_mapping := None;
     head_mapping := None;
     stop_mapping_at_tensors_arg := None;
     return_all_reversed_tensors := false;
     clip_all_reversed_tensors_arg := IsBool true;
     project_bottleneck_tensors_arg := IsBool true;
     execution_trace_arg := None |}.

(** ** [get_model_execution_graph] *)

(** Lines 830-847. A value of the dictionary is a node or, under the key
    [None], the list of the input-layer nodes. *)
Definition get_model_execution_graph (model : Model) (keep_input_layers : bool)
  : PyError + gmap (option nat) (NodeDict + list NodeDict) :=
  trace <-- get_model_execution_trace model keep_input_layers ;;
  let input_layers := filter (fun node => nd_nid node = None) trace in
  let graph :=
    fold_left (fun g node => <[nd_nid node := inl node]> g) trace ∅ in
  inr (if keep_input_layers
       then <[None := inr input_layers]> graph
       else graph).

(** The part of a node dictionary that comes from the execution list. *)
Definition node_core (d : NodeDict) : IdNode :=
  (nd_nid d, nd_layer d, nd_Xs d, nd_Ys d).

(** The execution list [get_model_execution_trace] works on. *)
Definition pruned_execution_list (model : Model) : list ExecNode :=
  snd (fst (trace_model_execution model)).

(** The nodes of an execution list that are not input layers. *)
Definition layer_nodes (execution_list : list ExecNode) : list ExecNode :=
  filter (fun node : ExecNode => is_input_layer (fst (fst node)) = false)
         execution_list.

(** Soundness of the two lookups with respect to a list of identified
    nodes: a tensor is a key of [inputs_to_node] only if a node with an id
    consumes it, and the ids listed for it are ids of nodes consuming it;
    the value of a tensor in [outputs_to_node] is the id of a node
    producing it. *)
Definition inputs_sound (inputs_to_node : gmap nat (list nat))
    (nodes : list IdNode) : Prop :=
  forall X nids, inputs_to_node !! X = Some nids ->
    (exists n l Xs Ys, (Some n, l, Xs, Ys) ∈ nodes /\ X ∈ Xs) /\
    (forall n, n ∈ nids ->
       exists l Xs Ys, (Some n, l, Xs, Ys) ∈ nodes /\ X ∈ Xs).

Definition outputs_sound (outputs_to_node : gmap nat (option nat))
    (nodes : list IdNode) : Prop :=
  forall Y nid, outputs_to_node !! Y = Some nid ->
    exists l Xs Ys, (nid, l, Xs, Ys) ∈ nodes /\ Y ∈ Ys.

(** ** Further notions for [reverse_model] *)

(** The outputs [reverse_model] works on. *)
Definition outputs_of {V Num} (model : Model) (args : @ReverseArgs V Num)
  : list nat :=
  snd (trace_of model args).

(** The exceptions of a failed lookup of a tensor and of a failed [assert]. *)
Definition lookup_or_assert (e : PyError) : Prop :=
  match e with
  | KeyError_tensor _ | AssertionError => True
  | _ => False
  end.

(** The exceptions [reverse_model] raises. *)
Definition reversal_error (e : PyError) : Prop :=
  match e with
  | NotImplementedError arg1 arg2 => arg1 = clip_msg1 /\ arg2 = clip_msg2
  | KeyError_tensor _ | AssertionError | KeyError_layer _ => True
  | TypeError msg => msg = none_not_callable_msg
  | Exception msg => msg = aggregation_msg \/ msg = network_msg
  | KeyError_nid _ | ValueError _ => False
  end.

(** The tensor [t] holds the single pending value [v] and is not
    finalized. *)
Definition pending {V} (reversed_tensors : gmap nat (ReverseTensorDict V))
    (t : nat) (v : V) : Prop :=
  exists e, reversed_tensors !! t = Some e /\
            tensor e = Some v /\ tensors e = None /\ final_tensor e = None.

(** A linear chain: the execution list in which the layer of every step
    maps the tensor before it to the tensor of the step. *)
Fixpoint chain_nodes (t0 : nat) (steps : list (Layer * nat)) : list ExecNode :=
  match steps with
  | [] => []
  | (l, t1) :: rest => (l, [t0], [t1]) :: chain_nodes t1 rest
  end.

Fixpoint chain_end (t0 : nat) (steps : list (Layer * nat)) : nat :=
  match steps with
  | [] => t0
  | (_, t1) :: rest => chain_end t1 rest
  end.

(** The reverse mapping that hands the reversed outputs back unchanged. *)
Definition pass_through {V} : ReverseMapping V :=
  fun Xs Ys reversed_Ys reverse_state => reversed_Ys.

(** The arguments of a call
    [reverse_model(model, lambda layer: pass_through, head_mapping=h,
    execution_trace=(layers, chain, [end]))]. *)
Definition chain_args {V Num} (head : option (nat -> V)) (layers : list Layer)
    (t0 : nat) (steps : list (Layer * nat)) : @ReverseArgs V Num :=
  {| reverse_mappings := fun _ => Some (MappingFunction pass_through);
     default_reverse_mapping := None;
     head_mapping := head;
     stop_mapping_at_tensors_arg := None;
     return_all_reversed_tensors := false;
     clip_all_reversed_tensors_arg := IsBool false;
     project_bottleneck_tensors_arg := IsBool false;
     execution_trace_arg :=
       Some (layers, chain_nodes t0 steps, [chain_end t0 steps]) |}.

(** The frontier with which the walk of a chain starts: the tensor of its
    first step. *)
Definition chain_frontier (steps : list (Layer * nat)) : gset nat :=
  match steps with
  | [] => ∅
  | (_, t1) :: _ => {[t1]}
  end.

(** ** [get_model_layers] and [model_contains] *)

(** A layer object together with its attribute [layers], which the code
    reads only when the layer is a network. *)
Inductive KerasLayer := KLayer (l : Layer) (layers : list KerasLayer).

Definition is_network (l : Layer) : bool :=
  match layer_class l with Network => true | _ => false end.

(** Lines 394-397: the body of the loop of [collect_layers] for one layer,
    on the list [layers] collected so far. *)
Fixpoint collect_layer (layer : KerasLayer) (layers : list Layer)
  : PyError + list Layer :=
  match layer with
  | KLayer l inner =>
      if bool_decide (l ∈ layers) then inl AssertionError
      else
        let layers := layers ++ [l] in
        if is_network l
        then (fix collect_inner (container_layers : list KerasLayer)
                  (layers : list Layer) : PyError + list Layer :=
                match container_layers with
                | [] => inr layers
                | layer :: rest =>
                    ls <-- collect_layer layer layers ;; collect_inner rest ls
                end) inner layers
        else inr layers
  end.

(** Lines 392-397: [collect_layers(container)], given [container.layers]. *)
Fixpoint collect_layers (container_layers : list KerasLayer)
    (layers : list Layer) : PyError + list Layer :=
  match container_layers with
  | [] => inr layers
  | layer :: rest =>
      ls <-- collect_layer layer layers ;; collect_layers rest ls
  end.

(** Lines 388-401, given [model.layers]. *)
Definition get_model_layers (model_layers : list KerasLayer)
  : PyError + list Layer :=
  collect_layers model_layers [].

(** Lines 422-426; [layer_condition] is the list [iutils.to_list] makes of
    the argument. *)
Definition model_contains (model_layers : list KerasLayer)
    (layer_condition : list (Layer -> bool)) : PyError + list (list Layer) :=
  layers <-- get_model_layers model_layers ;;
  inr (map (fun c => filter (fun l => c l = true) layers) layer_condition).

(** The layers of a nesting of layers, a container before the layers it
    contains. *)
Fixpoint nested_layers (layer : KerasLayer) : list Layer :=
  match layer with
  | KLayer l inner =>
      l :: (if is_network l then flat_map nested_layers inner else [])
  end.

(** ** [get_symbolic_weight_names] and [update_symbolic_weights] *)

(** What the two functions read and write of a layer object: its
    attributes (the object each name is bound to, objects being given by
    their identity), the names [dir(layer)] lists, the property [weights],
    and the two lists of weights. *)
Record WeightedLayer := {
  attributes : gmap string nat;
  dir_layer : list string;
  weights : list nat;
  _trainable_weights : list nat;
  _non_trainable_weights : list nat
}.

Definition good_guesses : list string :=
  ["kernel"; "bias"; "gamma"; "beta"; "moving_mean"; "moving_variance";
   "depthwise_kernel"; "pointwise_kernel"]%string.

Definition symbolic_weight_msg : string :=
  "Could not find symoblic weight name(s)."%string.

(** Lines 189-194: the first name among the good guesses and [dir(layer)]
    that is an attribute of the layer bound to the weight. *)
Definition find_weight_name (layer : WeightedLayer) (weight : nat)
  : option string :=
  snd <$> list_find (fun attr_name => attributes layer !! attr_name = Some weight)
                    (good_guesses ++ dir_layer layer).

(** Lines 173-198. *)
Definition get_symbolic_weight_names (layer : WeightedLayer)
    (weights_arg : option (list nat)) : PyError + list string :=
  let weights := default (weights layer) weights_arg in
  let ret :=
    fold_left
      (fun ret weight =>
         match find_weight_name layer weight with
         | Some attr_name => ret ++ [attr_name]
         | None => ret
         end)
      weights [] in
  if decide (length weights <> length ret)
  then inl (Exception symbolic_weight_msg)
  else inr ret.

(** The exceptions of [update_symbolic_weights]: a missing attribute
    ([getattr]) and a value that is not in a list ([list.index]). *)
Inductive UpdateError :=
| AttributeError (name : string)
| ValueError_not_in_list (x : nat).

(** [l.index(x)] *)
Definition list_index (x : nat) (l : list nat) : option nat :=
  fst <$> list_find (fun y => y = x) l.

(** Lines 218-228: one iteration, with the two lists of ids computed before
    the loop. *)
Definition update_symbolic_weight
    (trainable_weight_ids non_trainable_weight_ids : list nat)
    (layer : WeightedLayer) (name : string) (weight : nat)
  : UpdateError + WeightedLayer :=
  match attributes layer !! name with
  | None => inl (AttributeError name)
  | Some current_weight_id =>
      if bool_decide (current_weight_id ∈ trainable_weight_ids)
      then
        match list_index current_weight_id trainable_weight_ids with
        | Some idx =>
            inr {| attributes := <[name := weight]> (attributes layer);
                   dir_layer := dir_layer layer;
                   weights := weights layer;
                   _trainable_weights :=
                     <[idx := weight]> (_trainable_weights layer);
                   _non_trainable_weights := _non_trainable_weights layer |}
        | None => inl (ValueError_not_in_list current_weight_id)
        end
      else
        match list_index current_weight_id non_trainable_weight_ids with
        | Some idx =>
            inr {| attributes := <[name := weight]> (attributes layer);
                   dir_layer := dir_layer layer;
                   weights := weights layer;
                   _trainable_weights := _trainable_weights layer;
                   _non_trainable_weights :=
                     <[idx := weight]> (_non_trainable_weights layer) |}
        | None => inl (ValueError_not_in_list current_weight_id)
        end
  end.

Fixpoint update_loop (trainable_weight_ids non_trainable_weight_ids : list nat)
    (items : list (string * nat)) (layer : WeightedLayer)
  : UpdateError + WeightedLayer :=
  match items with
  | [] => inr layer
  | (name, weight) :: rest =>
      match update_symbolic_weight trainable_weight_ids
              non_trainable_weight_ids layer name weight with
      | inl e => inl e
      | inr layer' =>
          update_loop trainable_weight_ids non_trainable_weight_ids rest layer'
      end
  end.

(** Lines 214-228; [weight_mapping] is the list of the items of the
    dictionary, in its iteration order (the names are distinct). *)
Definition update_symbolic_weights (layer : WeightedLayer)
    (weight_mapping : list (string * nat)) : UpdateError + WeightedLayer :=
  let trainable_weight_ids := _trainable_weights layer in
  let non_trainable_weight_ids := _non_trainable_weights layer in
  update_loop trainable_weight_ids non_trainable_weight_ids weight_mapping layer.

(** ** [pre_softmax_tensors] *)

Definition no_softmax_msg : string := "No softmax found."%string.

Section PreSoftmax.

(** A tensor is used through its Keras history: whether the layer that
    produced it contains a softmax activation, whether that layer is an
    [Activation] layer, the input of the layer at the node of the tensor,
    and the tensor obtained by applying the copy of the layer without
    activation to that input. *)
Context {T : Type}.
Variable contains_softmax : T -> bool.
Variable is_activation_layer : T -> bool.
Variable input_at : T -> T.
Variable apply_wo_activation : T -> T.

(** Lines 363-370: one iteration, on the pair [(softmax_found, ret)]. *)
Definition pre_softmax_step (acc : bool * list T) (x : T) : bool * list T :=
  let '(softmax_found, ret) := acc in
  if contains_softmax x
  then (true,
        ret ++ [if is_activation_layer x then input_at x
                else apply_wo_activation x])
  else (softmax_found, ret).

(** Lines 356-375. *)
Definition pre_softmax_tensors (Xs : list T) (should_find_softmax : bool)
  : PyError + list T :=
  let '(softmax_found, ret) := fold_left pre_softmax_step Xs (false, []) in
  if should_find_softmax && negb softmax_found
  then inl (Exception no_softmax_msg)
  else inr ret.

End PreSoftmax.

(** A notion for the proofs about [get_model_layers]: the layers of
    [new] are distinct and none of them is in [seen]. *)
Definition fresh (seen new : list Layer) : Prop :=
  (forall x, x ∈ new -> x ∉ seen) /\ NoDup new.

(** ** More concrete inputs *)

(** The nodes of [chain_model] followed by a layer that consumes the
    output of the model. *)
Definition chain_with_extra_nodes : list ExecNode :=
  [(inp 0, [0], [0]); (prim 1, [0], [1]); (prim 2, [1], [2]);
   (prim 3, [2], [3])].

(** A network used as a layer. *)
Definition network_model : Model :=
  flat_model [0] [1] [({| layer_id := 1; layer_class := Network |}, [0], [1])].

(** A caller-supplied execution trace whose list of layers is empty. *)
Definition unlisted_layer_args : @ReverseArgs Z Z :=
  {| reverse_mappings := fun _ => Some (MappingFunction pass_sum);
     default_reverse_mapping := None;
     head_mapping := None;
     stop_mapping_at_tensors_arg := None;
     return_all_reversed_tensors := false;
     clip_all_reversed_tensors_arg := IsBool false;
     project_bottleneck_tensors_arg := IsBool false;
     execution_trace_arg := Some ([], [(prim 1, [0], [1])], [1]) |}.

(** A model with a layer and a nested model of one layer. *)
Definition nested_model_layers : list KerasLayer :=
  [KLayer (prim 1) [];
   KLayer {| layer_id := 2; layer_class := Network |} [KLayer (prim 3) []]].

(** A dense layer: kernel and bias, both trainable. *)
Definition dense_layer : WeightedLayer :=
  {| attributes := {[ "kernel"%string := 10; "bias"%string := 11 ]};
     dir_layer := ["bias"; "kernel"; "name"]%string;
     weights := [10; 11];
     _trainable_weights := [10; 11];
     _non_trainable_weights := [] |}.

(** ** Producers and consumers in an execution list *)








(** Input 0 reaches the output 4 through the tensors 1 and 2 and through
    the tensor 3. *)
Definition two_path_model : Model :=
  flat_model [0] [4]
    [(inp 0, [0], [0]); (prim 1, [0], [1]); (prim 2, [1], [2]);
     (prim 3, [0], [3]); (prim 4, [2; 3], [4])].

(** * Properties *)

(** ** The pruning pass *)

Lemma all_in_needed (Ys used : list nat) (needed : gset nat) :
  needed = list_to_set used ->
  all_in Ys used = bool_decide (Forall (fun y => y ∈ needed) Ys).
Proof.
  intros ->. unfold all_in.
  apply eq_true_iff_eq. rewrite forallb_forall, bool_decide_eq_true.
  rewrite Forall_forall. split; intros H y Hy.
  - apply list_elem_of_In in Hy. apply H in Hy.
    apply bool_decide_eq_true in Hy. set_solver.
  - apply bool_decide_eq_true. apply list_elem_of_In in Hy.
    apply H in Hy. set_solver.
Qed.

Lemma filter_loop_reverse_scan (outputs : list nat) (records : list ExecNode) :
  let acc := fold_left filter_step (rev records) (outputs, []) in
  list_to_set (fst acc) = fst (reverse_scan outputs records) /\
  rev (snd acc) = snd (reverse_scan outputs records).
Proof.
  induction records as [|[[l Xs] Ys] later IH]; simpl.
  - done.
  - rewrite fold_left_app. simpl.
    destruct (fold_left filter_step (rev later) (outputs, [])) as [used tmp].
    destruct (reverse_scan outputs later) as [needed kept].
    simpl in IH. destruct IH as [Hn Hk]. unfold filter_step.
    rewrite (all_in_needed Ys used needed) by done.
    case_bool_decide; simpl.
    + split.
      * rewrite list_to_set_app_L. by rewrite Hn.
      * rewrite rev_app_distr. simpl. by rewrite Hk.
    + done.
Qed.

Lemma reverse_scan_sublist (outputs : list nat) (records : list ExecNode) :
  snd (reverse_scan outputs records) `sublist_of` records.
Proof.
  induction records as [|[[l Xs] Ys] later IH]; simpl.
  - done.
  - destruct (reverse_scan outputs later) as [needed kept]. simpl in IH.
    case_bool_decide; simpl.
    + by apply sublist_skip.
    + by apply sublist_cons.
Qed.

(** C3: the pruning pass of [trace_model_execution] keeps exactly the
    records selected by one reverse linear scan that starts from the declared
    outputs marked needed, keeps a record if and only if all its outputs are
    needed when it is visited, marks the inputs of a kept record needed and
    discards every other record; the kept records stay in forward order. *)
Theorem filter_executed_nodes_reverse_scan
    (outputs : list nat) (executed_nodes : list ExecNode) :
  filter_executed_nodes outputs executed_nodes
    = snd (reverse_scan outputs executed_nodes) /\
  filter_executed_nodes outputs executed_nodes `sublist_of` executed_nodes.
Proof.
  assert (filter_executed_nodes outputs executed_nodes
          = snd (reverse_scan outputs executed_nodes)) as E.
  { unfold filter_executed_nodes.
    apply (filter_loop_reverse_scan outputs executed_nodes). }
  split; [exact E|]. rewrite E. apply reverse_scan_sublist.
Qed.

(** ** Bottleneck nodes *)

Lemma connect_inputs_connections (Xs Ys : list nat)
    (fc : gmap nat (list nat)) (t : nat) :
  connections_of (connect_inputs Xs Ys fc) t
  = connections_of fc t
      ∪ (if bool_decide (t ∈ Xs) then list_to_set Ys else ∅).
Proof.
  unfold connect_inputs. revert fc.
  induction Xs as [|x Xs IH]; intros fc; cbn [fold_left].
  - rewrite bool_decide_eq_false_2 by apply not_elem_of_nil. set_solver.
  - rewrite IH. clear IH.
    assert (connections_of
              (match fc !! x with
               | Some old => <[x:=old ++ Ys]> fc
               | None => <[x:=Ys]> fc
               end) t
            = connections_of fc t
                ∪ (if bool_decide (t = x) then list_to_set Ys else ∅)) as ->.
    { unfold connections_of. case_bool_decide as Htx.
      - subst t. destruct (fc !! x) as [old|] eqn:E;
          rewrite lookup_insert_eq; [|set_solver].
        by rewrite list_to_set_app_L.
      - destruct (fc !! x) as [old|] eqn:E;
          (rewrite lookup_insert_ne by done); set_solver. }
    repeat case_bool_decide; set_solver.
Qed.

Lemma make_forward_connections_adjacency (execution_list : list ExecNode)
    (t : nat) :
  connections_of (make_forward_connections execution_list) t
  = forward_adjacency execution_list t.
Proof.
  unfold make_forward_connections.
  enough (forall (done_ : list ExecNode) (fc : gmap nat (list nat)),
             connections_of fc t = forward_adjacency done_ t ->
             connections_of
               (fold_left
                  (fun fc (node : ExecNode) =>
                     let '(l, Xs, Ys) := node in
                     if is_input_layer l then fc else connect_inputs Xs Ys fc)
                  execution_list fc) t
             = forward_adjacency (done_ ++ execution_list) t) as H.
  { apply (H [] ∅). unfold connections_of, forward_adjacency.
    by rewrite lookup_empty. }
  induction execution_list as [|[[l Xs] Ys] rest IH]; intros done_ fc Hfc; simpl.
  - by rewrite app_nil_r.
  - replace (done_ ++ (l, Xs, Ys) :: rest)
      with ((done_ ++ [(l, Xs, Ys)]) ++ rest) by by rewrite <- app_assoc.
    apply IH. unfold forward_adjacency in *.
    rewrite flat_map_app, list_to_set_app_L, <- Hfc. simpl.
    destruct (is_input_layer l).
    + set_solver.
    + rewrite connect_inputs_connections, app_nil_r.
      by case_bool_decide.
Qed.

Lemma connect_inputs_is_Some (Xs Ys : list nat) (fc : gmap nat (list nat))
    (t : nat) :
  is_Some (connect_inputs Xs Ys fc !! t) <-> is_Some (fc !! t) \/ t ∈ Xs.
Proof.
  unfold connect_inputs. revert fc.
  induction Xs as [|x Xs IH]; intros fc; cbn [fold_left].
  - rewrite elem_of_nil. tauto.
  - rewrite IH, elem_of_cons. clear IH.
    assert (is_Some (match fc !! x with
                     | Some old => <[x:=old ++ Ys]> fc
                     | None => <[x:=Ys]> fc
                     end !! t)
            <-> is_Some (fc !! t) \/ t = x) as ->; [|tauto].
    destruct (decide (t = x)) as [->|Hne].
    + destruct (fc !! x); rewrite lookup_insert_eq; split; eauto.
    + destruct (fc !! x); rewrite lookup_insert_ne by done; tauto.
Qed.

Lemma make_forward_connections_is_Some (execution_list : list ExecNode)
    (t : nat) :
  is_Some (make_forward_connections execution_list !! t)
  <-> consumed execution_list t.
Proof.
  unfold make_forward_connections, consumed.
  enough (forall (done_ : list ExecNode) (fc : gmap nat (list nat)),
             (is_Some (fc !! t) <-> consumed done_ t) ->
             is_Some
               (fold_left
                  (fun fc (node : ExecNode) =>
                     let '(l, Xs, Ys) := node in
                     if is_input_layer l then fc else connect_inputs Xs Ys fc)
                  execution_list fc !! t)
             <-> consumed (done_ ++ execution_list) t) as H.
  { apply (H [] ∅). unfold consumed. rewrite lookup_empty, Exists_nil.
    split; [by intros [? ?] | done]. }
  induction execution_list as [|[[l Xs] Ys] rest IH]; intros done_ fc Hfc;
    cbn [fold_left].
  - by rewrite app_nil_r.
  - replace (done_ ++ (l, Xs, Ys) :: rest)
      with ((done_ ++ [(l, Xs, Ys)]) ++ rest) by by rewrite <- app_assoc.
    apply IH. unfold consumed in *.
    rewrite Exists_app, Exists_cons, Exists_nil, <- Hfc.
    destruct (is_input_layer l).
    + split; [tauto|]. intros [?|[[? _]|[]]]; [done|done].
    + rewrite connect_inputs_is_Some. tauto.
Qed.

Lemma open_forward_inr (execution_list : list ExecNode) (X : nat)
    (oc oc' : gset nat) :
  open_forward (make_forward_connections execution_list) X oc = inr oc' <->
  consumed execution_list X /\
  oc' = oc ∪ forward_adjacency execution_list X.
Proof.
  rewrite <- make_forward_connections_is_Some,
          <- make_forward_connections_adjacency.
  unfold open_forward, connections_of.
  destruct (make_forward_connections execution_list !! X) as [fw|].
  - split; [intros [= <-]; eauto | by intros [_ ->]].
  - split; [done | by intros [[? ?] _]].
Qed.

Lemma open_inputs_inr (execution_list : list ExecNode) (inputs : list nat)
    (oc oc' : gset nat) :
  open_inputs (make_forward_connections execution_list) inputs oc = inr oc' <->
  Forall (consumed execution_list) inputs /\
  oc' = oc ∪ expand (forward_adjacency execution_list) inputs.
Proof.
  revert oc. induction inputs as [|X rest IH]; intros oc; cbn [open_inputs].
  - unfold expand. cbn. split.
    + intros [= <-]. split; [done | set_solver].
    + intros [_ ->]. f_equal. set_solver.
  - rewrite Forall_cons. unfold expand. cbn.
    destruct (open_forward _ X oc) as [e|oc1] eqn:E; cbn [bind].
    + split; [done|]. intros [[HX _] _].
      assert (open_forward (make_forward_connections execution_list) X oc
              = inr (oc ∪ forward_adjacency execution_list X)) as E'
        by by apply open_forward_inr.
      congruence.
    + apply open_forward_inr in E as [HX ->]. rewrite IH. unfold expand.
      split; (intros [? ->]; split; [tauto | set_solver]).
Qed.

Lemma close_outputs_inr (Ys : list nat) (oc oc' : gset nat) :
  close_outputs Ys oc = inr oc' <->
  NoDup Ys /\ Forall (fun y => y ∈ oc) Ys /\ oc' = oc ∖ list_to_set Ys.
Proof.
  revert oc. induction Ys as [|Y rest IH]; intros oc; cbn [close_outputs].
  - split.
    + intros [= <-]. split_and!; [constructor | constructor | set_solver].
    + intros (_ & _ & ->). f_equal. set_solver.
  - rewrite NoDup_cons, Forall_cons. case_bool_decide as HY.
    + rewrite IH. split.
      * intros (Hnd & Hall & ->). split_and!.
        -- intros HYr. rewrite Forall_forall in Hall.
           specialize (Hall Y HYr). set_solver.
        -- done.
        -- done.
        -- eapply Forall_impl; [exact Hall|]. set_solver.
        -- set_solver.
      * intros ((HYr & Hnd) & (_ & Hall) & ->). split_and!.
        -- done.
        -- rewrite Forall_forall in *. intros y Hy.
           specialize (Hall y Hy). set_solver.
        -- set_solver.
    + split; [done | tauto].
Qed.

Lemma reopen_outputs_inr (execution_list : list ExecNode)
    (outputs Ys : list nat) (oc oc' : gset nat) :
  reopen_outputs (make_forward_connections execution_list) outputs Ys oc
    = inr oc' <->
  Forall (consumed execution_list) (filter (fun y => y ∉ outputs) Ys) /\
  oc' = oc ∪ expand (forward_adjacency execution_list)
                    (filter (fun y => y ∉ outputs) Ys).
Proof.
  revert oc. induction Ys as [|Y rest IH]; intros oc; cbn [reopen_outputs].
  - unfold expand. cbn. split.
    + intros [= <-]. split; [done | set_solver].
    + intros [_ ->]. f_equal. set_solver.
  - rewrite filter_cons. case_bool_decide as HY.
    + cbn [bind]. rewrite decide_False by tauto. apply IH.
    + rewrite decide_True by done. rewrite Forall_cons. unfold expand. cbn.
      destruct (open_forward _ Y oc) as [e|oc1] eqn:E; cbn [bind].
      * split; [done|]. intros [[HX _] _].
        assert (open_forward (make_forward_connections execution_list) Y oc
                = inr (oc ∪ forward_adjacency execution_list Y)) as E'
          by by apply open_forward_inr.
        congruence.
      * apply open_forward_inr in E as [HX ->]. rewrite IH. unfold expand.
        split; (intros [? ->]; split; [tauto | set_solver]).
Qed.

Lemma bottleneck_loop_inr (trace : list ExecNode)
    (outputs : list nat) (execution_list : list ExecNode)
    (oc : gset nat) (ret ret' : list BottleneckNode) :
  bottleneck_loop (make_forward_connections trace) outputs execution_list oc ret
    = inr ret' <->
  frontier_walk_ok trace (forward_adjacency trace) outputs execution_list oc /\
  ret' = ret ++ frontier_walk (forward_adjacency trace) outputs execution_list oc.
Proof.
  revert oc ret ret'.
  induction execution_list as [|[[l Xs] Ys] rest IH]; intros oc ret ret';
    cbn [bottleneck_loop frontier_walk_ok frontier_walk].
  - rewrite app_nil_r. split; [by intros [= <-] | by intros [_ ->]].
  - destruct (is_input_layer l); [apply IH|].
    destruct (close_outputs Ys oc) as [e|oc1] eqn:E1; cbn [bind].
    { split; [done|]. intros ((Hnd & Hall & _) & _).
      assert (close_outputs Ys oc = inr (oc ∖ list_to_set Ys)) as E
        by by apply close_outputs_inr.
      congruence. }
    apply close_outputs_inr in E1 as (Hnd & Hall & ->).
    destruct (reopen_outputs _ outputs Ys _) as [e|oc2] eqn:E2; cbn [bind].
    { split; [done|]. intros ((_ & _ & Hc & _) & _).
      assert (reopen_outputs (make_forward_connections trace) outputs Ys
                (oc ∖ list_to_set Ys)
              = inr (oc ∖ list_to_set Ys
                     ∪ expand (forward_adjacency trace)
                         (filter (fun y => y ∉ outputs) Ys))) as E
        by by apply reopen_outputs_inr.
      congruence. }
    apply reopen_outputs_inr in E2 as (Hc & ->).
    rewrite IH.
    rewrite (bool_decide_ext (size (oc ∖ list_to_set Ys) = 0)
                             (oc ∖ list_to_set Ys = ∅))
      by (rewrite size_empty_iff; apply leibniz_equiv_iff).
    case_bool_decide; cbn [app]; rewrite <- ?app_assoc; cbn [app]; tauto.
Qed.

(** C7: [get_bottleneck_nodes] returns [ret] exactly when the requirements
    of the walk hold (the declared inputs are consumed, the outputs of every
    visited record are distinct tensors of the open frontier, the tensors
    the frontier is expanded through are consumed) and [ret] is, in forward
    order, the list of the records that are not input-producing and for
    which the open frontier is empty right after their outputs are removed,
    the frontier starting as the expansion of the declared inputs through
    the forward adjacency and being expanded, after each record, through
    its outputs that are not declared outputs. *)
Theorem get_bottleneck_nodes_frontier
    (inputs outputs : list nat) (execution_list : list ExecNode)
    (ret : list BottleneckNode) :
  get_bottleneck_nodes inputs outputs execution_list = inr ret <->
  Forall (consumed execution_list) inputs /\
  frontier_walk_ok execution_list (forward_adjacency execution_list) outputs
    execution_list (expand (forward_adjacency execution_list) inputs) /\
  ret = bottleneck_records inputs outputs execution_list.
Proof.
  unfold get_bottleneck_nodes, bottleneck_records.
  destruct (open_inputs _ inputs ∅) as [e|oc] eqn:E; cbn [bind].
  - split; [done|]. intros (Hin & _).
    assert (open_inputs (make_forward_connections execution_list) inputs ∅
            = inr (∅ ∪ expand (forward_adjacency execution_list) inputs)) as E'
      by by apply open_inputs_inr.
    congruence.
  - apply open_inputs_inr in E as (Hin & ->).
    rewrite bottleneck_loop_inr.
    replace (∅ ∪ expand (forward_adjacency execution_list) inputs)
      with (expand (forward_adjacency execution_list) inputs) by set_solver.
    cbn [app]. tauto.
Qed.

(** ** The state of [reversed_tensors] during a reversal *)

Section ReversalFacts.

Context {V Num : Type}.
Variable Add : list V -> V.
Variable Project : BoolOrRange Num -> V -> V.
Variable Clip : Num -> Num -> V -> V.
Variable forward_value : nat -> V.

Implicit Types rt : gmap nat (ReverseTensorDict V).
Implicit Types stop : list nat.
Implicit Types clip project : BoolOrRange Num.
Implicit Types bt : gset nat.

Lemma add_reversed_tensor_stop stop nid i X (v : V) rt :
  X ∈ stop -> add_reversed_tensor stop nid i X v rt = inr rt.
Proof.
  intros H. unfold add_reversed_tensor. by rewrite bool_decide_eq_true_2.
Qed.

Lemma add_reversed_tensor_good stop nid i X (v : V) rt rt' :
  add_reversed_tensor stop nid i X v rt = inr rt' ->
  good stop rt -> good stop rt'.
Proof.
  unfold add_reversed_tensor. case_bool_decide as HX; [by intros [= <-]|].
  intros H [Hs Hok].
  assert (forall e, entry_ok e ->
            good stop (<[X := e]> rt)) as Hins.
  { intros e He. split.
    - intros t Ht. rewrite lookup_insert_ne; [by apply Hs|].
      by intros ->.
    - intros t e'. destruct (decide (X = t)) as [->|Hne].
      + rewrite lookup_insert_eq. by intros [= <-].
      + rewrite lookup_insert_ne by done. apply Hok. }
  destruct (rt !! X) as [tmp|] eqn:E.
  - destruct (tensor tmp) as [t0|] eqn:Et; [|done].
    destruct (tensors tmp) eqn:Ets; [done|]. injection H as <-.
    by apply Hins.
  - injection H as <-. by apply Hins.
Qed.

Lemma add_reversed_tensors_from_good stop nid i Xs (vs : list V) rt rt' :
  add_reversed_tensors_from stop nid i Xs vs rt = inr rt' ->
  good stop rt -> good stop rt'.
Proof.
  revert i vs rt. induction Xs as [|X Xs IH]; intros i vs rt; simpl.
  - by intros [= <-].
  - destruct vs as [|v vs]; [by intros [= <-]|].
    destruct (add_reversed_tensor stop nid i X v rt) as [e|rt1] eqn:E;
      simpl; [done|].
    intros H Hg. eapply IH; [exact H|].
    by eapply add_reversed_tensor_good.
Qed.

Lemma get_reversed_tensor_inr clip project bt t rt v rt' :
  get_reversed_tensor Add Project Clip clip project bt t rt = inr (v, rt') ->
  reversed_value Add Project Clip clip project bt t rt = Some v /\
  finalized rt' t v /\
  (forall t' v', finalized rt t' v' -> finalized rt' t' v') /\
  (forall t', reversed_value Add Project Clip clip project bt t' rt'
              = reversed_value Add Project Clip clip project bt t' rt) /\
  (forall t', is_Some (rt' !! t') <-> is_Some (rt !! t')) /\
  (forall stop, good stop rt -> good stop rt').
Proof.
  unfold get_reversed_tensor, reversed_value, finalized.
  destruct (rt !! t) as [tmp|] eqn:E; [|done].
  destruct (final_tensor tmp) as [f|] eqn:Ef.
  - intros [= <- <-]. split_and!; eauto.
  - destruct (finalize _ _ _ _ _ _ t tmp) as [e|f] eqn:Efin; simpl; [done|].
    intros [= <- <-]. split_and!.
    + done.
    + rewrite lookup_insert_eq. eauto.
    + intros t' v' (e & He & Hv). destruct (decide (t = t')) as [<-|Hne].
      * rewrite E in He. injection He as <-. congruence.
      * rewrite lookup_insert_ne by done. eauto.
    + intros t'. destruct (decide (t = t')) as [<-|Hne].
      * rewrite lookup_insert_eq, E, Ef, Efin. done.
      * by rewrite lookup_insert_ne.
    + intros t'. destruct (decide (t = t')) as [<-|Hne].
      * rewrite lookup_insert_eq, E. split; eauto.
      * by rewrite lookup_insert_ne.
    + intros stop [Hs Hok]. split.
      * intros t' Ht'. rewrite lookup_insert_ne; [by apply Hs|].
        intros <-. rewrite (Hs t Ht') in E. done.
      * intros t' e'. destruct (decide (t = t')) as [<-|Hne].
        -- rewrite lookup_insert_eq. intros [= <-].
           exact (Hok t tmp E).
        -- rewrite lookup_insert_ne by done. apply Hok.
Qed.

Lemma get_reversed_tensor_succeeds clip project bt stop t rt :
  good stop rt -> is_Some (rt !! t) ->
  exists v rt',
    get_reversed_tensor Add Project Clip clip project bt t rt = inr (v, rt').
Proof.
  intros [_ Hok] [tmp E]. unfold get_reversed_tensor. rewrite E.
  destruct (final_tensor tmp) as [f|]; [eauto|].
  specialize (Hok t tmp E). unfold entry_ok in Hok. unfold finalize.
  destruct (tensor tmp), (tensors tmp); try done; simpl; eauto.
Qed.

Lemma get_reversed_tensors_inr clip project bt ts rt vs rt' :
  get_reversed_tensors Add Project Clip clip project bt ts rt = inr (vs, rt') ->
  Forall2 (fun t v =>
             reversed_value Add Project Clip clip project bt t rt = Some v /\
             finalized rt' t v) ts vs /\
  (forall t' v', finalized rt t' v' -> finalized rt' t' v') /\
  (forall t', reversed_value Add Project Clip clip project bt t' rt'
              = reversed_value Add Project Clip clip project bt t' rt) /\
  (forall t', is_Some (rt' !! t') <-> is_Some (rt !! t')) /\
  (forall stop, good stop rt -> good stop rt').
Proof.
  revert rt vs rt'. induction ts as [|t ts IH]; intros rt vs rt'; simpl.
  - intros [= <- <-]. split_and!; auto.
  - destruct (get_reversed_tensor _ _ _ _ _ _ t rt) as [e|[v rt1]] eqn:E1;
      simpl; [done|].
    destruct (get_reversed_tensors _ _ _ _ _ _ ts rt1) as [e|[vs1 rt2]] eqn:E2;
      simpl; [done|].
    intros [= <- <-].
    apply get_reversed_tensor_inr in E1 as (Hv & Hf & Hkeep & Hval & Hdom & Hg).
    apply IH in E2 as (Hall & Hkeep2 & Hval2 & Hdom2 & Hg2).
    split_and!.
    + constructor; [split; auto|].
      eapply Forall2_impl; [exact Hall|]. simpl.
      intros t' v' [H1 H2]. split; [|done]. by rewrite <- Hval.
    + auto.
    + intros t'. by rewrite Hval2, Hval.
    + intros t'. by rewrite Hdom2, Hdom.
    + auto.
Qed.

Lemma get_reversed_tensors_succeeds clip project bt stop ts rt :
  good stop rt -> Forall (fun t => is_Some (rt !! t)) ts ->
  exists vs rt',
    get_reversed_tensors Add Project Clip clip project bt ts rt = inr (vs, rt').
Proof.
  revert rt. induction ts as [|t ts IH]; intros rt Hg Hall; simpl.
  - eauto.
  - inversion Hall as [|? ? Ht Hts]; subst.
    destruct (get_reversed_tensor_succeeds clip project bt stop t rt Hg Ht)
      as (v & rt1 & E1).
    rewrite E1. simpl.
    pose proof (get_reversed_tensor_inr _ _ _ _ _ _ _ E1)
      as (_ & _ & _ & _ & Hdom & Hg1).
    destruct (IH rt1 (Hg1 stop Hg)) as (vs & rt2 & E2).
    { eapply Forall_impl; [exact Hts|]. intros t' H. by apply Hdom. }
    rewrite E2. simpl. eauto.
Qed.

Lemma reverse_node_good stop clip project bt model init len _nid node rt rt' :
  reverse_node Add Project Clip stop clip project bt model init len _nid node rt
    = inr rt' ->
  good stop rt -> good stop rt'.
Proof.
  destruct node as [[l Xs] Ys]. unfold reverse_node.
  destruct (layer_class l); [by intros [= <-] | done |].
  destruct (negb _); [by intros [= <-]|].
  destruct (get_reversed_tensors _ _ _ _ _ _ Ys rt) as [e|[vs rt1]] eqn:E;
    simpl; [done|].
  destruct (init !! l) as [[rm|]|]; [|done|done].
  intros H Hg. unfold add_reversed_tensors in H.
  eapply add_reversed_tensors_from_good; [exact H|].
  by apply (get_reversed_tensors_inr _ _ _ _ _ _ _ E).
Qed.

Lemma reverse_nodes_from_good stop clip project bt model init len _nid nodes rt rt' :
  reverse_nodes_from Add Project Clip stop clip project bt model init len
                     _nid nodes rt = inr rt' ->
  good stop rt -> good stop rt'.
Proof.
  revert _nid rt. induction nodes as [|node rest IH]; intros _nid rt; simpl.
  - by intros [= <-].
  - destruct (reverse_node _ _ _ _ _ _ _ _ _ _ _nid node rt) as [e|rt1] eqn:E;
      simpl; [done|].
    intros H Hg. eapply IH; [exact H|]. by eapply reverse_node_good.
Qed.

Lemma reverse_nodes_from_app stop clip project bt model init len _nid
    (nodes1 nodes2 : list ExecNode) rt :
  reverse_nodes_from Add Project Clip stop clip project bt model init len
                     _nid (nodes1 ++ nodes2) rt
  = (rt1 <-- reverse_nodes_from Add Project Clip stop clip project bt model
               init len _nid nodes1 rt ;;
     reverse_nodes_from Add Project Clip stop clip project bt model init len
                        (_nid + length nodes1) nodes2 rt1).
Proof.
  revert _nid rt. induction nodes1 as [|node rest IH]; intros _nid rt; simpl.
  - by rewrite Nat.add_0_r.
  - destruct (reverse_node _ _ _ _ _ _ _ _ _ _ _nid node rt) as [e|rt1];
      simpl; [done|].
    rewrite IH. by rewrite Nat.add_succ_r.
Qed.

Lemma good_empty stop : good stop (∅ : gmap nat (ReverseTensorDict V)).
Proof. split; intros t; [by rewrite lookup_empty | by rewrite lookup_empty]. Qed.

Lemma reverse_walk_good n model (args : @ReverseArgs V Num) bt rt :
  reverse_walk Add Project Clip forward_value n model args = inr (bt, rt) ->
  good (stop_of args) rt.
Proof.
  unfold reverse_walk. destruct (is_True _); [done|].
  destruct (trace_of model args) as [[layers execution_list] outputs].
  destruct (bottleneck_tensors_of model args) as [e|bt0]; simpl; [done|].
  destruct (add_reversed_tensors _ _ _ _ _) as [e|rt0] eqn:E0; simpl; [done|].
  destruct (reverse_nodes_from _ _ _ _ _ _ _ _ _ _ _ _ rt0) as [e|rt1] eqn:E1;
    simpl; [done|].
  intros [= <- <-].
  eapply reverse_nodes_from_good; [exact E1|].
  eapply add_reversed_tensors_from_good; [exact E0|]. apply good_empty.
Qed.

End ReversalFacts.

(** ** What [reverse_model] returns and how it fails *)

Section ReverseModelFacts.

Context {V Num : Type}.
Variable Add : list V -> V.
Variable Project : BoolOrRange Num -> V -> V.
Variable Clip : Num -> Num -> V -> V.
Variable forward_value : nat -> V.

Implicit Types rt : gmap nat (ReverseTensorDict V).
Implicit Types args : @ReverseArgs V Num.

Lemma reverse_model_inr model args res :
  reverse_model Add Project Clip forward_value model args = inr res <->
  exists bt rt vals rt',
    reverse_walk Add Project Clip forward_value
      (length (execution_list_of model args)) model args = inr (bt, rt) /\
    get_reversed_tensors Add Project Clip
      (clip_all_reversed_tensors_arg args)
      (project_bottleneck_tensors_arg args) bt
      (returned_inputs model args) rt = inr (vals, rt') /\
    res = if return_all_reversed_tensors args
          then ReversedAll vals rt' else ReversedInputs vals.
Proof.
  unfold reverse_model, execution_list_of.
  destruct (trace_of model args) as [[layers execution_list] outputs]. simpl.
  destruct (reverse_walk _ _ _ _ _ model args) as [e|[bt rt]]; simpl.
  { split; [done|]. by intros (? & ? & ? & ? & ? & _). }
  destruct (get_reversed_tensors _ _ _ _ _ _ _ rt) as [e|[vals rt']] eqn:E;
    simpl.
  { split; [done|]. intros (? & ? & ? & ? & [= <- <-] & H & _).
    rewrite E in H. done. }
  split.
  - intros H. exists bt, rt, vals, rt'. split_and!; [done|done|].
    destruct (return_all_reversed_tensors args); congruence.
  - intros (? & ? & ? & ? & [= <- <-] & H & ->). rewrite E in H.
    injection H as <- <-. by destruct (return_all_reversed_tensors args).
Qed.

Lemma initialize_reverse_mappings_lookup model
    (rm : Layer -> option (MetaMapping V)) (d : option (ReverseMapping V))
    (layers : list Layer) (l : Layer) :
  l ∈ layers ->
  initialize_reverse_mappings model rm d layers !! l
  = Some (initialize_reverse_mapping model rm d l).
Proof.
  unfold initialize_reverse_mappings.
  enough (forall m : gmap Layer (option (ReverseMapping V)),
             l ∈ layers \/
             m !! l = Some (initialize_reverse_mapping model rm d l) ->
             fold_left
               (fun m layer =>
                  <[layer := initialize_reverse_mapping model rm d layer]> m)
               layers m !! l
             = Some (initialize_reverse_mapping model rm d l)) as H.
  { intros Hl. apply H. by left. }
  induction layers as [|l0 layers IH]; intros m Hm; simpl.
  - destruct Hm as [Hm|Hm]; [by apply elem_of_nil in Hm | done].
  - apply IH. destruct (decide (l = l0)) as [->|Hne].
    + right. by rewrite lookup_insert_eq.
    + destruct Hm as [Hm|Hm].
      * left. apply elem_of_cons in Hm. by destruct Hm.
      * right. by rewrite lookup_insert_ne.
Qed.

(** The exception of lines 1078-1079 is never raised in a state in which
    every entry holds either a pending tensor or an aggregated list, and
    every state of a reversal is such a state ([reverse_walk_good]). *)
Lemma wrong_order_unreachable stop nid i X (v : V) rt :
  good stop rt ->
  add_reversed_tensor stop nid i X v rt <> inl (Exception wrong_order_msg).
Proof.
  intros [_ Hok]. unfold add_reversed_tensor.
  case_bool_decide; [done|].
  destruct (rt !! X) as [tmp|] eqn:E; [|done].
  specialize (Hok X tmp E). unfold entry_ok in Hok.
  destruct (tensor tmp), (tensors tmp); try done.
Qed.

(** A contribution to a tensor that was finalized from a single pending
    value is accepted without any error; the finalized value stays. *)
Lemma contribution_after_finalization stop clip project bt nid i nid' i'
    X (v1 v2 : V) rt rt1 f rt2 :
  X ∉ stop -> rt !! X = None ->
  add_reversed_tensor stop nid i X v1 rt = inr rt1 ->
  get_reversed_tensor Add Project Clip clip project bt X rt1 = inr (f, rt2) ->
  exists rt3,
    add_reversed_tensor stop nid' i' X v2 rt2 = inr rt3 /\
    rt3 !! X = Some {| id_ := (nid, i); tensor := None;
                       tensors := Some [v1; v2]; final_tensor := Some f |}.
Proof.
  intros HX Hnone. unfold add_reversed_tensor, get_reversed_tensor.
  rewrite !bool_decide_eq_false_2 by done. rewrite Hnone.
  intros [= <-]. rewrite lookup_insert_eq.
  cbn [final_tensor tensor tensors id_].
  destruct (finalize _ _ _ _ _ _ _ _) as [e|f'] eqn:Ef;
    cbn [bind]; [done|].
  intros [= <- <-]. rewrite lookup_insert_eq.
  cbn [final_tensor tensor tensors id_].
  eexists. split; [done|]. by rewrite lookup_insert_eq.
Qed.

(** Two contributions are aggregated into the list that [Add] receives. *)
Lemma two_contributions stop clip project bt nid i nid' i'
    X (v1 v2 : V) rt rt1 rt2 :
  X ∉ stop -> rt !! X = None ->
  add_reversed_tensor stop nid i X v1 rt = inr rt1 ->
  add_reversed_tensor stop nid' i' X v2 rt1 = inr rt2 ->
  reversed_value Add Project Clip clip project bt X rt2
  = match finalize Add Project Clip clip project bt X
            {| id_ := (nid, i); tensor := None; tensors := Some [v1; v2];
               final_tensor := None |} with
    | inr f => Some f
    | inl _ => None
    end.
Proof.
  intros HX Hnone. unfold add_reversed_tensor, reversed_value.
  rewrite !bool_decide_eq_false_2 by done. rewrite Hnone.
  intros [= <-]. rewrite lookup_insert_eq. simpl.
  intros [= <-]. rewrite lookup_insert_eq. done.
Qed.

(** A third contribution to the same tensor raises the exception of line
    1084. *)
Lemma third_contribution stop nid i nid' i' nid'' i''
    X (v1 v2 v3 : V) rt rt1 rt2 :
  X ∉ stop -> rt !! X = None ->
  add_reversed_tensor stop nid i X v1 rt = inr rt1 ->
  add_reversed_tensor stop nid' i' X v2 rt1 = inr rt2 ->
  add_reversed_tensor stop nid'' i'' X v3 rt2
  = inl (Exception aggregation_msg).
Proof.
  intros HX Hnone. unfold add_reversed_tensor.
  rewrite !bool_decide_eq_false_2 by done. rewrite Hnone.
  intros [= <-]. rewrite lookup_insert_eq. simpl.
  intros [= <-]. rewrite lookup_insert_eq. done.
Qed.

(** C10: with [clip_all_reversed_tensors=True], [reverse_model] raises
    [NotImplementedError] whatever the model and the other arguments are,
    hence before the trace is looked at and before any reversal step (which
    could raise other exceptions). *)
Theorem reverse_model_clip_True model args :
  clip_all_reversed_tensors_arg args = IsBool true ->
  reverse_model Add Project Clip forward_value model args
  = inl (NotImplementedError clip_msg1 clip_msg2).
Proof.
  intros H. unfold reverse_model, reverse_walk.
  destruct (trace_of model args) as [[layers execution_list] outputs].
  by rewrite H.
Qed.

(** C8: for a tensor [t] of the stop list, every contribution to [t] leaves
    [reversed_tensors] as it is and raises nothing; [t] is not among the
    inputs whose reversed tensors are returned, the returned list holds
    exactly the finalized values of those inputs, in order; and [t] is not a
    key of the final [reversed_tensors], which is the dictionary returned
    when all reversed tensors are requested. *)
Theorem stop_tensor_excluded model args t :
  t ∈ stop_of args ->
  (forall nid i v rt,
     add_reversed_tensor (stop_of args) nid i t v rt = inr rt) /\
  (t ∉ returned_inputs model args) /\
  (forall res,
     reverse_model Add Project Clip forward_value model args = inr res ->
     exists rt,
       Forall2 (finalized rt) (returned_inputs model args)
               (reversed_inputs_of res) /\
       rt !! t = None /\
       (forall vals rt', res = ReversedAll vals rt' -> rt' = rt) /\
       (return_all_reversed_tensors args = true ->
        res = ReversedAll (reversed_inputs_of res) rt)).
Proof.
  intros Ht. split_and!.
  - intros nid i v rt. by apply add_reversed_tensor_stop.
  - unfold returned_inputs. rewrite list_elem_of_filter. tauto.
  - intros res Hres.
    apply reverse_model_inr in Hres as (bt & rt & vals & rt' & Hw & Hg & ->).
    apply reverse_walk_good in Hw.
    apply get_reversed_tensors_inr in Hg as (Hall & _ & _ & _ & Hgood).
    exists rt'. split_and!.
    + replace (reversed_inputs_of _) with vals
        by by destruct (return_all_reversed_tensors args).
      eapply Forall2_impl; [exact Hall|]. by intros ? ? [_ ?].
    + by apply (Hgood _ Hw).
    + intros vals0 rt0.
      destruct (return_all_reversed_tensors args); congruence.
    + by intros ->.
Qed.

(** When the backward walk has ended in the state [rt] and every declared
    input that is not in the stop list has an entry in [rt], then
    [reverse_model] returns, and the list it returns holds exactly the
    reversed tensors of those inputs, in the declared order of the inputs. *)
Theorem reverse_model_returns_inputs model args bt rt :
  reverse_walk Add Project Clip forward_value
    (length (execution_list_of model args)) model args = inr (bt, rt) ->
  Forall (fun t => is_Some (rt !! t)) (returned_inputs model args) ->
  exists res,
    reverse_model Add Project Clip forward_value model args = inr res /\
    Forall2 (fun t v =>
               reversed_value Add Project Clip
                 (clip_all_reversed_tensors_arg args)
                 (project_bottleneck_tensors_arg args) bt t rt = Some v)
            (returned_inputs model args) (reversed_inputs_of res).
Proof.
  intros Hw Hall.
  destruct (get_reversed_tensors_succeeds Add Project Clip
              (clip_all_reversed_tensors_arg args)
              (project_bottleneck_tensors_arg args) bt (stop_of args)
              (returned_inputs model args) rt) as (vals & rt' & Hg);
    [by eapply reverse_walk_good | done |].
  exists (if return_all_reversed_tensors args
          then ReversedAll vals rt' else ReversedInputs vals).
  split.
  - apply reverse_model_inr. by exists bt, rt, vals, rt'.
  - replace (reversed_inputs_of _) with vals
      by by destruct (return_all_reversed_tensors args).
    apply get_reversed_tensors_inr in Hg as (H & _).
    eapply Forall2_impl; [exact H|]. by intros ? ? [? _].
Qed.


End ReverseModelFacts.

(** ** Node identifiers *)

Lemma num_input_layers_app (l1 l2 : list ExecNode) :
  num_input_layers (l1 ++ l2) = num_input_layers l1 + num_input_layers l2.
Proof. unfold num_input_layers. by rewrite filter_app, length_app. Qed.

Lemma num_input_layers_le (l : list ExecNode) :
  num_input_layers l <= length l.
Proof. unfold num_input_layers. apply length_filter. Qed.

Lemma num_input_layers_cons (l : Layer) (Xs Ys : list nat)
    (rest : list ExecNode) :
  num_input_layers ((l, Xs, Ys) :: rest)
  = (if is_input_layer l then 1 else 0) + num_input_layers rest.
Proof.
  unfold num_input_layers. rewrite filter_cons. simpl.
  destruct (is_input_layer l); [by rewrite decide_True | by rewrite decide_False].
Qed.

Lemma enrich_with_nids_app (current_nid : nat) (l1 l2 : list ExecNode) :
  enrich_with_nids current_nid (l1 ++ l2)
  = enrich_with_nids current_nid l1
      ++ enrich_with_nids (current_nid + (length l1 - num_input_layers l1)) l2.
Proof.
  revert current_nid. induction l1 as [|[[l Xs] Ys] l1 IH]; intros c.
  - simpl. by rewrite Nat.add_0_r.
  - cbn [app enrich_with_nids]. rewrite num_input_layers_cons.
    pose proof (num_input_layers_le l1).
    destruct (is_input_layer l); cbn [app]; rewrite IH; do 3 f_equal;
      simpl; lia.
Qed.

(** The node id [get_model_execution_trace] gives to the node that stands
    after [before] in the execution list and is not an input layer: the
    number of nodes of [before] that are not input layers. *)
Lemma trace_nid_position (before after : list ExecNode) (l : Layer)
    (Xs Ys : list nat) :
  is_input_layer l = false ->
  enrich_with_nids 0 (before ++ (l, Xs, Ys) :: after) !! length before
  = Some (Some (length before - num_input_layers before), l, Xs, Ys).
Proof.
  intros Hl. rewrite enrich_with_nids_app.
  assert (length (enrich_with_nids 0 before) = length before) as Hlen.
  { generalize 0. induction before as [|[[l0 Xs0] Ys0] before IH]; intros c;
      [done|].
    simpl. destruct (is_input_layer l0); simpl; by rewrite IH. }
  rewrite lookup_app_r by lia. rewrite Hlen, Nat.sub_diag.
  simpl. by rewrite Hl.
Qed.

(** The node id [reverse_model] uses for the same node: the enumeration of
    the reversed list reaches it at index [length after], and line 1197
    gives the trace id minus the number of input layers standing after the
    node. *)
Lemma walk_nid_trace_nid (before after : list ExecNode) (l : Layer)
    (Xs Ys : list nat) :
  is_input_layer l = false ->
  let execution_list := before ++ (l, Xs, Ys) :: after in
  rev execution_list !! length after = Some (l, Xs, Ys) /\
  walk_nid (length execution_list - num_input_layers execution_list)
           (length after)
  = (Z.of_nat (length before - num_input_layers before)
     - Z.of_nat (num_input_layers after))%Z.
Proof.
  intros Hl. cbn zeta. split.
  - rewrite rev_app_distr. simpl. rewrite <- app_assoc.
    rewrite lookup_app_r by by rewrite length_rev.
    by rewrite length_rev, Nat.sub_diag.
  - unfold walk_nid.
    rewrite num_input_layers_app, num_input_layers_cons, Hl, length_app.
    pose proof (num_input_layers_le before).
    pose proof (num_input_layers_le after).
    simpl. lia.
Qed.

(** The backward walk goes through strictly decreasing node ids. *)
Lemma walk_nid_decreasing (len _nid : nat) :
  (walk_nid len (S _nid) < walk_nid len _nid)%Z.
Proof. unfold walk_nid. lia. Qed.


(** ** Concrete runs *)

(** The exception precedes the one the network layer of this model would
    raise in the walk. *)
Lemma reverse_model_clip_True_witness :
  reverse_model zAdd zProject zClip Z.of_nat clip_True_model clip_True_args
  = inl (NotImplementedError clip_msg1 clip_msg2).
Proof.
  apply (reverse_model_clip_True zAdd zProject zClip Z.of_nat
           clip_True_model clip_True_args).
  reflexivity.
Defined.

(** Both layers of the chain are bottlenecks. *)
Lemma get_bottleneck_nodes_frontier_witness :
  [(prim 1, ([0], [1])); (prim 2, ([1], [2]))]
  = bottleneck_records [0] [2] (lin_executed_nodes (model_linearized chain_model)).
Proof.
  apply (proj1 (get_bottleneck_nodes_frontier [0] [2]
                  (lin_executed_nodes (model_linearized chain_model)) _)).
  vm_compute. reflexivity.
Defined.

(** With the input 1 in the stop list, only the reversed tensor of the
    input 0 is returned and tensor 1 is no key of the dictionary. *)
Lemma stop_tensor_excluded_witness :
  exists rt : gmap nat (ReverseTensorDict Z),
    Forall2 (finalized rt) (returned_inputs two_inputs_model stop_input_args)
            [7%Z] /\
    rt !! 1 = None.
Proof.
  assert (1 ∈ stop_of stop_input_args) as Hin by (simpl; set_solver).
  destruct (stop_tensor_excluded zAdd zProject zClip Z.of_nat
              two_inputs_model stop_input_args 1 Hin) as (_ & _ & H).
  edestruct H as (rt & HF & Hn & _); [vm_compute; reflexivity|].
  exists rt. split; [exact HF | exact Hn].
Defined.

(** The same run returns the reversed tensors of its inputs outside the
    stop list. *)
Lemma reverse_model_returns_inputs_witness :
  exists (bt : gset nat) (rt : gmap nat (ReverseTensorDict Z)) res,
    reverse_model zAdd zProject zClip Z.of_nat two_inputs_model stop_input_args
    = inr res /\
    Forall2 (fun t v =>
               reversed_value zAdd zProject zClip (IsBool false) (IsBool false)
                              bt t rt = Some v)
            (returned_inputs two_inputs_model stop_input_args)
            (reversed_inputs_of res).
Proof.
  do 2 eexists.
  eapply (reverse_model_returns_inputs zAdd zProject zClip Z.of_nat
            two_inputs_model stop_input_args).
  - vm_compute. reflexivity.
  - vm_compute. repeat constructor. eexists. reflexivity.
Defined.


(** C1: a tensor consumed by three records. The reversal of the model
    raises the exception of line 1084 when the third contribution reaches
    the tensor, instead of adding it to the aggregated list; with two
    consumers the contributions are summed. *)
Theorem fan_out3_reversal_fails :
  reverse_model zAdd zProject zClip Z.of_nat fan_out3_model (plain_args pass_sum)
  = inl (Exception aggregation_msg) /\
  reverse_model zAdd zProject zClip Z.of_nat fan_out2_model (plain_args pass_sum)
  = inr (ReversedInputs [2%Z]).
Proof. split; vm_compute; reflexivity. Qed.

(** C2: tensor 1 is finalized when its producer is reversed, and receives a
    contribution afterwards. No exception is raised: [reverse_model]
    returns, the entry of tensor 1 holds the late contribution in its
    aggregated list, and its finalized value is the one computed before. *)
Theorem late_contribution_accepted :
  exists rt : gmap nat (ReverseTensorDict Z),
    reverse_model zAdd zProject zClip Z.of_nat misordered_model misordered_args
    = inr (ReversedAll [10%Z] rt) /\
    rt !! 1 = Some {| id_ := ((-1)%Z, 0); tensor := None;
                      tensors := Some [10%Z; 20%Z];
                      final_tensor := Some 10%Z |}.
Proof. eexists. split; vm_compute; reflexivity. Qed.

(** The test of line 750 is made on [inputs_to_node]. On a list in which
    two records produce tensor 1 and no layer has consumed it by then,
    [get_model_execution_trace] returns a trace without raising; on a list
    that is not in the order of the execution, in which every tensor has
    one producer but tensor 1 is consumed before it is produced, it raises
    the duplicate-producer exception. *)
Theorem duplicate_producer_not_detected :
  (exists trace,
     get_model_execution_trace duplicate_producer_model false = inr trace /\
     map (fun d => (nd_nid d, nd_Ys d)) trace = [(Some 0, [1]); (Some 1, [1])]) /\
  get_model_execution_trace consumer_first_model false
  = inl (Exception duplicate_producer_msg).
Proof.
  split; [eexists; split|]; vm_compute; reflexivity.
Qed.

(** C4: in the model with a late input, the layer 11 has the node id 0 in
    the execution trace, and [reverse_model] calls its reverse mapping with
    the node id -1 (the mapping [pass_nid] returns the node id it is called
    with, so it is the reversed tensor of input 0). *)
Theorem late_input_node_ids_differ :
  (exists trace,
     get_model_execution_trace late_input_model false = inr trace /\
     map (fun d => (nd_layer d, nd_nid d)) trace
     = [(prim 11, Some 0); (prim 13, Some 1); (prim 14, Some 2)]) /\
  (exists rt : gmap nat (ReverseTensorDict Z),
     reverse_model zAdd zProject zClip Z.of_nat late_input_model late_input_args
     = inr (ReversedAll [(-1)%Z; 1%Z] rt) /\
     id_ <$> rt !! 0 = Some ((-1)%Z, 0) /\
     id_ <$> rt !! 1 = Some (1%Z, 0)).
Proof.
  split; [eexists; split|eexists; split_and!]; vm_compute; reflexivity.
Qed.

(** C6: the reversal of the chain stopped at its intermediate tensor. The
    backward walk goes through the whole execution list without error: the
    node of layer 1 is skipped by the test of line 1206, and the declared
    input 0, which is not in the stop list, gets no entry in
    [reversed_tensors]. The list comprehension of lines 1235-1239 then looks
    tensor 0 up, and [reverse_model] raises [KeyError] for it instead of
    returning. With the same stop list, a model in which the input also
    reaches the output on a path that is not stopped is reversed and the
    reversed input is returned. *)
Theorem stopped_chain_returns_nothing :
  (exists (bt : gset nat) (rt : gmap nat (ReverseTensorDict Z)),
     reverse_walk zAdd zProject zClip Z.of_nat
       (length (execution_list_of chain_model stop_chain_args))
       chain_model stop_chain_args = inr (bt, rt) /\
     rt !! 0 = None) /\
  returned_inputs chain_model stop_chain_args = [0] /\
  reverse_model zAdd zProject zClip Z.of_nat chain_model stop_chain_args
  = inl (KeyError_tensor 0) /\
  reverse_model zAdd zProject zClip Z.of_nat two_path_model stop_chain_args
  = inr (ReversedInputs [4%Z]).
Proof.
  split_and!; [do 2 eexists; split| | |]; vm_compute; reflexivity.
Qed.


(** * Further properties of the code *)

(** ** The filter of [trace_model_execution] *)

Lemma filter_executed_nodes_scan (outputs : list nat)
    (executed_nodes : list ExecNode) :
  filter_executed_nodes outputs executed_nodes
  = snd (reverse_scan outputs executed_nodes).
Proof.
  unfold filter_executed_nodes.
  apply (filter_loop_reverse_scan outputs executed_nodes).
Qed.

Lemma reverse_scan_kept (outputs : list nat) (records : list ExecNode) :
  reverse_scan outputs (snd (reverse_scan outputs records))
  = reverse_scan outputs records.
Proof.
  induction records as [|[[l Xs] Ys] later IH]; [done|].
  cbn [reverse_scan].
  destruct (reverse_scan outputs later) as [needed kept] eqn:E.
  cbn [snd] in IH.
  case_bool_decide as HYs; cbn [snd]; [|done].
  cbn [reverse_scan]. rewrite IH. by rewrite bool_decide_eq_true_2.
Qed.

(** The filter is idempotent: filtering an already filtered execution list
    against the same outputs removes nothing. *)
Theorem filter_executed_nodes_idempotent (outputs : list nat)
    (executed_nodes : list ExecNode) :
  filter_executed_nodes outputs (filter_executed_nodes outputs executed_nodes)
  = filter_executed_nodes outputs executed_nodes.
Proof.
  rewrite !filter_executed_nodes_scan. by rewrite reverse_scan_kept.
Qed.

Lemma reverse_scan_needs_outputs (outputs : list nat)
    (records : list ExecNode) (y : nat) :
  y ∈ outputs -> y ∈ fst (reverse_scan outputs records).
Proof.
  intros Hy. induction records as [|[[l Xs] Ys] later IH]; cbn [reverse_scan].
  - cbn. set_solver.
  - destruct (reverse_scan outputs later) as [needed kept]. cbn [fst] in IH.
    case_bool_decide; cbn [fst]; set_solver.
Qed.

Lemma reverse_scan_app (outputs : list nat) (before after : list ExecNode) :
  exists kept_before,
    snd (reverse_scan outputs (before ++ after))
    = kept_before ++ snd (reverse_scan outputs after).
Proof.
  induction before as [|[[l Xs] Ys] before IH]; cbn [app reverse_scan].
  - by exists [].
  - destruct IH as [kept_before IH].
    destruct (reverse_scan outputs (before ++ after)) as [needed kept].
    cbn [snd] in IH. subst kept.
    case_bool_decide; cbn [snd].
    + by exists ((l, Xs, Ys) :: kept_before).
    + by exists kept_before.
Qed.

(** A node all of whose output tensors are outputs of the model is kept,
    wherever it stands in the execution list; this covers a node without
    any output tensor. *)
Theorem filter_executed_nodes_keeps_output_nodes (outputs : list nat)
    (before after : list ExecNode) (l : Layer) (Xs Ys : list nat) :
  Forall (fun y => y ∈ outputs) Ys ->
  (l, Xs, Ys) ∈ filter_executed_nodes outputs (before ++ (l, Xs, Ys) :: after).
Proof.
  intros HYs. rewrite filter_executed_nodes_scan.
  destruct (reverse_scan_app outputs before ((l, Xs, Ys) :: after))
    as [kept_before ->].
  apply elem_of_app. right. cbn [reverse_scan].
  pose proof (reverse_scan_needs_outputs outputs after) as Hneeded.
  destruct (reverse_scan outputs after) as [needed kept]. cbn [fst] in Hneeded.
  rewrite bool_decide_eq_true_2.
  - cbn [snd]. apply elem_of_cons. by left.
  - eapply Forall_impl; [exact HYs|]. apply Hneeded.
Qed.

Lemma reverse_scan_supported (outputs : list nat) (records : list ExecNode) :
  (forall y, y ∈ fst (reverse_scan outputs records) ->
     y ∈ outputs \/
     exists node : ExecNode,
       node ∈ snd (reverse_scan outputs records) /\ y ∈ snd (fst node)) /\
  (forall before l Xs Ys after,
     snd (reverse_scan outputs records) = before ++ (l, Xs, Ys) :: after ->
     Forall (fun y => y ∈ outputs \/
                      exists node : ExecNode, node ∈ after /\ y ∈ snd (fst node))
            Ys).
Proof.
  induction records as [|[[l0 Xs0] Ys0] later IH]; cbn [reverse_scan].
  - split.
    + intros y Hy. left. cbn in Hy. set_solver.
    + intros before l Xs Ys after H. cbn in H. by destruct before.
  - destruct (reverse_scan outputs later) as [needed kept].
    cbn [fst snd] in IH. destruct IH as [IH1 IH2].
    case_bool_decide as HYs; cbn [fst snd]; [|by split].
    split.
    + intros y Hy. apply elem_of_union in Hy as [Hy|Hy].
      * destruct (IH1 y Hy) as [?|(node & Hn & Hyn)]; [by left|].
        right. exists node. split; [|done]. apply elem_of_cons. by right.
      * right. exists (l0, Xs0, Ys0). split; [apply elem_of_cons; by left|].
        cbn. set_solver.
    + intros before l Xs Ys after H. destruct before as [|b before].
      * cbn [app] in H. injection H as -> -> -> <-.
        eapply Forall_impl; [exact HYs|]. intros y Hy. by apply IH1.
      * cbn [app] in H. injection H as _ H. by eapply IH2.
Qed.

(** In the filtered execution list every output tensor of a node is an
    output of the model or an input tensor of a node standing later in the
    list: no kept node only feeds dropped nodes. *)
Theorem filter_executed_nodes_supported (outputs : list nat)
    (executed_nodes before after : list ExecNode) (l : Layer)
    (Xs Ys : list nat) :
  filter_executed_nodes outputs executed_nodes
    = before ++ (l, Xs, Ys) :: after ->
  Forall (fun y => y ∈ outputs \/
                   exists node : ExecNode, node ∈ after /\ y ∈ snd (fst node))
         Ys.
Proof.
  rewrite filter_executed_nodes_scan.
  apply (reverse_scan_supported outputs executed_nodes).
Qed.

(** ** [get_model_execution_trace] and [get_model_execution_graph] *)

Lemma map_err_inr {A B : Type} (f : A -> PyError + B) (l : list A)
    (r : list B) :
  map_err f l = inr r <-> Forall2 (fun a b => f a = inr b) l r.
Proof.
  revert r. induction l as [|a l IH]; intros r; cbn [map_err].
  - split; [intros [= <-]; constructor | by inversion 1].
  - destruct (f a) as [e|b] eqn:Ea; cbn [bind].
    + split; [done|]. inversion 1; congruence.
    + destruct (map_err f l) as [e|bs] eqn:El; cbn [bind].
      * split; [done|]. inversion 1 as [|? b' ? bs' Hb Hbs]; subst.
        apply IH in Hbs. done.
      * split.
        -- intros [= <-]. constructor; [done|]. by apply IH.
        -- inversion 1 as [|? b' ? bs' Hb Hbs]; subst.
           apply IH in Hbs. congruence.
Qed.

Lemma make_entry_core (inputs_to_node : gmap nat (list nat))
    (outputs_to_node : gmap nat (option nat))
    (nid_to_nodes : gmap (option nat) IdNode) (t : IdNode) (d : NodeDict) :
  make_entry inputs_to_node outputs_to_node nid_to_nodes t = inr d ->
  node_core d = t.
Proof.
  destruct t as [[[nid l] Xs] Ys]. unfold make_entry.
  destruct (is_input_layer l).
  - destruct (map_err _ Ys) as [e|Ys_nids]; cbn [bind]; [done|].
    destruct (map_err _ Ys_nids) as [e|Ys_layers]; cbn [bind]; [done|].
    by intros [= <-].
  - destruct (map_err _ _) as [e|Xs_layers]; cbn [bind]; [done|].
    destruct (map_err _ _) as [e|Ys_layers]; cbn [bind]; [done|].
    by intros [= <-].
Qed.

Lemma make_entry_links (inputs_to_node : gmap nat (list nat))
    (outputs_to_node : gmap nat (option nat))
    (nid_to_nodes : gmap (option nat) IdNode) (t : IdNode) (d : NodeDict) :
  make_entry inputs_to_node outputs_to_node nid_to_nodes t = inr d ->
  (is_input_layer (nd_layer d) = true ->
   nd_Xs_nids d = [] /\
   Forall2 (fun Y ns => exists nids,
                inputs_to_node !! Y = Some nids /\ ns = map Some nids)
           (nd_Ys d) (nd_Ys_nids d)) /\
  (is_input_layer (nd_layer d) = false ->
   nd_Xs_nids d = map (fun X => default None (outputs_to_node !! X)) (nd_Xs d) /\
   nd_Ys_nids d = map (fun Y => match inputs_to_node !! Y with
                                | Some nids => map Some nids
                                | None => [None]
                                end) (nd_Ys d)).
Proof.
  destruct t as [[[nid l] Xs] Ys]. unfold make_entry.
  destruct (is_input_layer l) eqn:El.
  - destruct (map_err _ Ys) as [e|Ys_nids] eqn:E1; cbn [bind]; [done|].
    destruct (map_err _ Ys_nids) as [e|Ys_layers]; cbn [bind]; [done|].
    intros [= <-]. cbn. rewrite El. split; [|done]. intros _. split; [done|].
    apply map_err_inr in E1. eapply Forall2_impl; [exact E1|]. cbn.
    intros Y ns H. destruct (inputs_to_node !! Y) as [nids|]; [|done].
    injection H as <-. eauto.
  - destruct (map_err _ _) as [e|Xs_layers]; cbn [bind]; [done|].
    destruct (map_err _ _) as [e|Ys_layers]; cbn [bind]; [done|].
    intros [= <-]. cbn. rewrite El. split; [done|]. by intros _.
Qed.

(** What a successful run of [get_model_execution_trace] went through. *)
Lemma get_model_execution_trace_inr (model : Model) (keep_input_layers : bool)
    (trace : list NodeDict) :
  get_model_execution_trace model keep_input_layers = inr trace ->
  let id_execution_trace := enrich_with_nids 0 (pruned_execution_list model) in
  exists inputs_to_node outputs_to_node all_nodes,
    create_lookups keep_input_layers id_execution_trace ∅ ∅
      = inr (inputs_to_node, outputs_to_node) /\
    Forall2 (fun t d =>
               make_entry inputs_to_node outputs_to_node
                 (make_nid_to_nodes id_execution_trace) t = inr d)
            id_execution_trace all_nodes /\
    trace = (if keep_input_layers then all_nodes
             else filter (fun tmp => is_Some (nd_nid tmp)) all_nodes).
Proof.
  unfold get_model_execution_trace, pruned_execution_list.
  destruct (trace_model_execution model) as [[layers execution_trace] outputs].
  cbn [fst snd].
  destruct (create_lookups _ _ ∅ ∅) as [e|[itn otn]]; cbn [bind]; [done|].
  destruct (map_err _ _) as [e|all_nodes] eqn:E; cbn [bind]; [done|].
  intros H. exists itn, otn, all_nodes. split_and!; [done| |].
  - by apply map_err_inr.
  - destruct keep_input_layers; by injection H as <-.
Qed.

Lemma Forall2_make_entry_core (inputs_to_node : gmap nat (list nat))
    (outputs_to_node : gmap nat (option nat))
    (nid_to_nodes : gmap (option nat) IdNode)
    (id_execution_trace : list IdNode) (all_nodes : list NodeDict) :
  Forall2 (fun t d =>
             make_entry inputs_to_node outputs_to_node nid_to_nodes t = inr d)
          id_execution_trace all_nodes ->
  map node_core all_nodes = id_execution_trace.
Proof.
  induction 1 as [|t d ts ds Hd _ IH]; [done|].
  cbn [map]. rewrite IH. f_equal. by eapply make_entry_core.
Qed.

Lemma enrich_with_nids_layer_nodes (current_nid : nat)
    (execution_list : list ExecNode) :
  filter (fun t : IdNode => is_Some (fst (fst (fst t))))
         (enrich_with_nids current_nid execution_list)
  = zip_with (fun n (node : ExecNode) =>
                (Some n, fst (fst node), snd (fst node), snd node))
             (seq current_nid (length (layer_nodes execution_list)))
             (layer_nodes execution_list).
Proof.
  unfold layer_nodes. revert current_nid.
  induction execution_list as [|[[l Xs] Ys] rest IH]; intros c; [done|].
  cbn [enrich_with_nids]. rewrite (filter_cons _ (l, Xs, Ys)). cbn [fst].
  destruct (is_input_layer l).
  - rewrite filter_cons. cbn [fst]. rewrite decide_False by by intros [? ?].
    rewrite decide_False by done. apply IH.
  - rewrite filter_cons. cbn [fst]. rewrite decide_True by eauto.
    rewrite decide_True by done. cbn [length seq zip_with fst snd].
    by rewrite IH.
Qed.

Lemma filter_map_node_core (all_nodes : list NodeDict) :
  map node_core (filter (fun tmp => is_Some (nd_nid tmp)) all_nodes)
  = filter (fun t : IdNode => is_Some (fst (fst (fst t))))
           (map node_core all_nodes).
Proof.
  induction all_nodes as [|d ds IH]; [done|].
  cbn [map]. rewrite !filter_cons. cbn [node_core fst].
  destruct (decide (is_Some (nd_nid d))); cbn [map]; by rewrite IH.
Qed.

(** Without the input layers, the returned trace lists the nodes of the
    filtered execution list that are not input layers, in their order, and
    numbers them 0, 1, 2, ... without gap. *)
Theorem execution_trace_dense_nids (model : Model) (trace : list NodeDict) :
  get_model_execution_trace model false = inr trace ->
  map (fun d => (nd_layer d, nd_Xs d, nd_Ys d)) trace
    = layer_nodes (pruned_execution_list model) /\
  map nd_nid trace = map Some (seq 0 (length trace)).
Proof.
  intros H. apply get_model_execution_trace_inr in H
    as (itn & otn & all_nodes & _ & Hall & ->).
  apply Forall2_make_entry_core in Hall.
  pose proof (filter_map_node_core all_nodes) as Hcore.
  rewrite Hall, enrich_with_nids_layer_nodes in Hcore.
  set (nodes := layer_nodes (pruned_execution_list model)) in *.
  set (trace := filter (fun tmp => is_Some (nd_nid tmp)) all_nodes) in *.
  assert (length trace = length nodes) as Hlen.
  { rewrite <- (length_map node_core trace), Hcore.
    rewrite length_zip_with, length_seq. lia. }
  rewrite Hlen. clearbody trace nodes. clear Hlen Hall.
  revert trace Hcore. generalize 0.
  induction nodes as [|[[l Xs] Ys] nodes IH]; intros c trace Hcore.
  - destruct trace; [done|]. done.
  - destruct trace as [|d trace]; [done|].
    cbn [length seq zip_with map fst snd] in *.
    injection Hcore as Hn Hl HXs HYs Hrest.
    destruct (IH _ _ Hrest) as [IH1 IH2].
    rewrite IH1, IH2, Hn, Hl, HXs, HYs. done.
Qed.

Lemma record_inputs_lookup (n : nat) (Xs : list nat)
    (inputs_to_node : gmap nat (list nat)) (X : nat) (nids : list nat) :
  record_inputs n Xs inputs_to_node !! X = Some nids ->
  (is_Some (inputs_to_node !! X) \/ X ∈ Xs) /\
  (forall m, m ∈ nids ->
     (exists old, inputs_to_node !! X = Some old /\ m ∈ old) \/
     (m = n /\ X ∈ Xs)).
Proof.
  unfold record_inputs. revert inputs_to_node nids.
  induction Xs as [|X0 Xs IH]; intros itn nids; cbn [fold_left].
  - intros H. split; [eauto|]. intros m Hm. left. eauto.
  - intros H. apply IH in H as [H1 H2].
    assert (forall v, match itn !! X0 with
                      | Some nids0 => <[X0:=nids0 ++ [n]]> itn
                      | None => <[X0:=[n]]> itn
                      end !! X = Some v ->
              (X <> X0 /\ itn !! X = Some v) \/
              (X = X0 /\ forall m, m ∈ v ->
                 (exists old, itn !! X = Some old /\ m ∈ old) \/ m = n)) as Hstep.
    { intros v Hv. destruct (decide (X = X0)) as [->|Hne].
      - right. split; [done|]. intros m Hm.
        destruct (itn !! X0) as [old|] eqn:E; rewrite lookup_insert_eq in Hv;
          injection Hv as <-.
        + apply elem_of_app in Hm as [Hm|Hm]; [left; eauto|].
          right. by apply list_elem_of_singleton in Hm.
        + right. by apply list_elem_of_singleton in Hm.
      - left. split; [done|].
        destruct (itn !! X0); by rewrite lookup_insert_ne in Hv. }
    split.
    + destruct H1 as [[v Hv]|H1]; [|right; apply elem_of_cons; by right].
      destruct (Hstep v Hv) as [[_ ?]|[-> _]]; [left; eauto|].
      right. apply elem_of_cons. by left.
    + intros m Hm. destruct (H2 m Hm) as [(old & Hold & Hmo)|[-> HX]].
      * destruct (Hstep old Hold) as [[_ ?]|[-> Hin]]; [left; eauto|].
        destruct (Hin m Hmo) as [?| ->]; [by left|].
        right. split; [done|]. apply elem_of_cons. by left.
      * right. split; [done|]. apply elem_of_cons. by right.
Qed.

Lemma record_outputs_lookup (nid : option nat) (Ys : list nat)
    (inputs_to_node : gmap nat (list nat))
    (outputs_to_node otn' : gmap nat (option nat)) (Y : nat)
    (v : option nat) :
  record_outputs nid Ys inputs_to_node outputs_to_node = inr otn' ->
  otn' !! Y = Some v ->
  outputs_to_node !! Y = Some v \/ (v = nid /\ Y ∈ Ys).
Proof.
  revert outputs_to_node.
  induction Ys as [|Y0 Ys IH]; intros otn; cbn [record_outputs].
  - intros [= <-]. by left.
  - destruct (inputs_to_node !! Y0); [done|].
    intros H Hv. destruct (IH _ H Hv) as [Hl|[-> HY]].
    + destruct (decide (Y0 = Y)) as [->|Hne].
      * rewrite lookup_insert_eq in Hl. injection Hl as <-.
        right. split; [done|]. apply elem_of_cons. by left.
      * rewrite lookup_insert_ne in Hl by done. by left.
    + right. split; [done|]. apply elem_of_cons. by right.
Qed.

Lemma create_lookups_sound (keep_input_layers : bool)
    (id_execution_trace done_ : list IdNode)
    (itn0 itn : gmap nat (list nat)) (otn0 otn : gmap nat (option nat)) :
  create_lookups keep_input_layers id_execution_trace itn0 otn0
    = inr (itn, otn) ->
  inputs_sound itn0 done_ -> outputs_sound otn0 done_ ->
  inputs_sound itn (done_ ++ id_execution_trace) /\
  outputs_sound otn (done_ ++ id_execution_trace).
Proof.
  revert done_ itn0 otn0.
  induction id_execution_trace as [|[[[nid l] Xs] Ys] rest IH];
    intros done_ itn0 otn0; cbn [create_lookups].
  - intros [= <- <-]. by rewrite app_nil_r.
  - set (itn1 := match nid with
                 | Some n => record_inputs n Xs itn0
                 | None => itn0
                 end).
    destruct (if keep_input_layers || bool_decide (is_Some nid)
              then record_outputs nid Ys itn1 otn0 else inr otn0)
      as [e|otn1] eqn:E; cbn [bind]; [done|].
    intros H Hin Hout.
    replace (done_ ++ (nid, l, Xs, Ys) :: rest)
      with ((done_ ++ [(nid, l, Xs, Ys)]) ++ rest) by by rewrite <- app_assoc.
    eapply IH; [exact H| |].
    + intros X nids HX. subst itn1. destruct nid as [n|].
      * apply record_inputs_lookup in HX as [H1 H2].
        split.
        -- destruct H1 as [[old Hold]|HXs].
           ++ destruct (Hin X old Hold) as [(n' & l' & Xs' & Ys' & Hm & HX') _].
              exists n', l', Xs', Ys'. split; [|done]. apply elem_of_app.
              by left.
           ++ exists n, l, Xs, Ys. split; [|done]. apply elem_of_app. right.
              by apply list_elem_of_singleton.
        -- intros m Hm. destruct (H2 m Hm) as [(old & Hold & Hmo)|[-> HXs]].
           ++ destruct (Hin X old Hold) as [_ Hall].
              destruct (Hall m Hmo) as (l' & Xs' & Ys' & Hm' & HX').
              exists l', Xs', Ys'. split; [|done]. apply elem_of_app. by left.
           ++ exists l, Xs, Ys. split; [|done]. apply elem_of_app. right.
              by apply list_elem_of_singleton.
      * destruct (Hin X nids HX) as [(n' & l' & Xs' & Ys' & Hm & HX') Hall].
        split.
        -- exists n', l', Xs', Ys'. split; [|done]. apply elem_of_app. by left.
        -- intros m Hm'. destruct (Hall m Hm') as (l0 & Xs0 & Ys0 & ? & ?).
           exists l0, Xs0, Ys0. split; [|done]. apply elem_of_app. by left.
    + intros Y v HY.
      assert (otn0 !! Y = Some v \/ (v = nid /\ Y ∈ Ys)) as [Hold|[-> HYs]].
      { destruct (keep_input_layers || bool_decide (is_Some nid)).
        - eapply record_outputs_lookup; [exact E | exact HY].
        - injection E as <-. by left. }
      * destruct (Hout Y v Hold) as (l' & Xs' & Ys' & Hm & HY').
        exists l', Xs', Ys'. split; [|done]. apply elem_of_app. by left.
      * exists l, Xs, Ys. split; [|done]. apply elem_of_app. right.
        by apply list_elem_of_singleton.
Qed.

Lemma enrich_with_nids_elem (current_nid : nat) (execution_list : list ExecNode)
    (nid : option nat) (l : Layer) (Xs Ys : list nat) :
  (nid, l, Xs, Ys) ∈ enrich_with_nids current_nid execution_list ->
  (l, Xs, Ys) ∈ execution_list /\
  (is_input_layer l = true -> nid = None) /\
  (is_input_layer l = false -> exists n, nid = Some n /\ current_nid <= n).
Proof.
  revert current_nid.
  induction execution_list as [|[[l0 Xs0] Ys0] rest IH]; intros c;
    cbn [enrich_with_nids].
  - by intros ?%elem_of_nil.
  - destruct (is_input_layer l0) eqn:El0; intros [H|H]%elem_of_cons.
    + injection H as -> -> -> ->. split_and!; [by left | done | congruence].
    + apply IH in H as (H1 & H2 & H3). split_and!; [by right | done | done].
    + injection H as -> -> -> ->.
      split_and!; [by left | congruence | eauto].
    + apply IH in H as (H1 & H2 & H3). split_and!; [by right | done |].
      intros Hl. destruct (H3 Hl) as (n & -> & Hn). exists n. split; [done|lia].
Qed.

Lemma enrich_with_nids_node (current_nid : nat) (execution_list : list ExecNode)
    (l : Layer) (Xs Ys : list nat) :
  (l, Xs, Ys) ∈ execution_list ->
  exists nid, (nid, l, Xs, Ys) ∈ enrich_with_nids current_nid execution_list.
Proof.
  revert current_nid.
  induction execution_list as [|[[l0 Xs0] Ys0] rest IH]; intros c;
    cbn [enrich_with_nids].
  - by intros ?%elem_of_nil.
  - intros [H|H]%elem_of_cons.
    + injection H as -> -> ->.
      destruct (is_input_layer l0); eexists; by left.
    + destruct (is_input_layer l0).
      * destruct (IH c H) as [nid Hn]. exists nid. by right.
      * destruct (IH (S c) H) as [nid Hn]. exists nid. by right.
Qed.

(** The ids of [enrich_with_nids] increase strictly along the list. *)
Lemma enrich_with_nids_increasing (current_nid : nat)
    (execution_list : list ExecNode) (i j : nat) (ti tj : IdNode) (n m : nat) :
  enrich_with_nids current_nid execution_list !! i = Some ti ->
  enrich_with_nids current_nid execution_list !! j = Some tj ->
  fst (fst (fst ti)) = Some n -> fst (fst (fst tj)) = Some m ->
  i < j -> n < m.
Proof.
  revert current_nid i j.
  induction execution_list as [|[[l0 Xs0] Ys0] rest IH]; intros c i j;
    cbn [enrich_with_nids]; [done|].
  intros Hi Hj Hn Hm Hij. destruct j as [|j]; [lia|].
  destruct i as [|i].
  - destruct (is_input_layer l0) eqn:El0; cbn in Hi, Hj;
      injection Hi as <-; cbn in Hn; [done|]. injection Hn as <-.
    destruct tj as [[[nid l] Xs] Ys]. cbn in Hm. subst nid.
    apply list_elem_of_lookup_2 in Hj.
    apply enrich_with_nids_elem in Hj as (_ & Hinp & Hid).
    destruct (is_input_layer l); [by specialize (Hinp eq_refl)|].
    destruct (Hid eq_refl) as (m' & [= <-] & Hle). lia.
  - destruct (is_input_layer l0); cbn in Hi, Hj;
      (eapply IH; [exact Hi | exact Hj | done | done | lia]).
Qed.

Lemma trace_node_of (model : Model) (keep_input_layers : bool)
    (trace all_nodes : list NodeDict) (d : NodeDict) :
  trace = (if keep_input_layers then all_nodes
           else filter (fun tmp => is_Some (nd_nid tmp)) all_nodes) ->
  (d ∈ trace -> d ∈ all_nodes) /\
  (d ∈ all_nodes -> is_Some (nd_nid d) -> d ∈ trace).
Proof.
  intros ->. destruct keep_input_layers; [done|].
  rewrite list_elem_of_filter. tauto.
Qed.

(** The links to producers are sound: when the entry [Xs_nids] of a
    returned node gives the id [p] for an input tensor, the returned trace
    has a node with id [p], and that node has this tensor among its output
    tensors. *)
Theorem execution_trace_producers (model : Model) (keep_input_layers : bool)
    (trace : list NodeDict) (d : NodeDict) (j X p : nat) :
  get_model_execution_trace model keep_input_layers = inr trace ->
  d ∈ trace ->
  nd_Xs d !! j = Some X ->
  nd_Xs_nids d !! j = Some (Some p) ->
  exists d', d' ∈ trace /\ nd_nid d' = Some p /\ X ∈ nd_Ys d'.
Proof.
  intros H Hd HX Hp.
  apply get_model_execution_trace_inr in H
    as (itn & otn & all_nodes & Hlook & Hall & Htrace).
  pose proof (Forall2_make_entry_core _ _ _ _ _ Hall) as Hcore.
  destruct (create_lookups_sound _ _ [] _ _ _ _ Hlook) as [_ Hout].
  { intros ? ? HX0. by rewrite lookup_empty in HX0. }
  { intros ? ? HY0. by rewrite lookup_empty in HY0. }
  cbn [app] in Hout.
  apply (trace_node_of model keep_input_layers trace all_nodes d Htrace) in Hd.
  apply list_elem_of_lookup in Hd as [i Hi].
  destruct (Forall2_lookup_r _ _ _ _ _ Hall Hi) as (t & _ & Hentry).
  apply make_entry_links in Hentry as [Hinput Hlayer].
  destruct (is_input_layer (nd_layer d)).
  - destruct (Hinput eq_refl) as [Hnil _]. by rewrite Hnil in Hp.
  - destruct (Hlayer eq_refl) as [HXs _]. rewrite HXs in Hp.
    rewrite list_lookup_fmap, HX in Hp. cbn in Hp. injection Hp as Hp.
    destruct (otn !! X) as [v|] eqn:EX; [|done]. cbn in Hp. subst v.
    destruct (Hout X _ EX) as (l' & Xs' & Ys' & Hin & HY).
    rewrite <- Hcore in Hin. apply list_elem_of_fmap in Hin as (d' & Hd' & Hin).
    exists d'. unfold node_core in Hd'. injection Hd' as Hn Hl HXs' HYs'.
    split_and!; [|done|by rewrite <- HYs'].
    apply (trace_node_of model keep_input_layers trace all_nodes d' Htrace);
      [done|]. rewrite <- Hn. eauto.
Qed.

(** The links to consumers are sound: every id listed in the entry
    [Ys_nids] of a returned node for an output tensor is the id of a node of
    the returned trace that has this tensor among its input tensors. *)
Theorem execution_trace_consumers (model : Model) (keep_input_layers : bool)
    (trace : list NodeDict) (d : NodeDict) (j Y n : nat)
    (ns : list (option nat)) :
  get_model_execution_trace model keep_input_layers = inr trace ->
  d ∈ trace ->
  nd_Ys d !! j = Some Y ->
  nd_Ys_nids d !! j = Some ns ->
  Some n ∈ ns ->
  exists d', d' ∈ trace /\ nd_nid d' = Some n /\ Y ∈ nd_Xs d'.
Proof.
  intros H Hd HY Hns Hn.
  apply get_model_execution_trace_inr in H
    as (itn & otn & all_nodes & Hlook & Hall & Htrace).
  pose proof (Forall2_make_entry_core _ _ _ _ _ Hall) as Hcore.
  destruct (create_lookups_sound _ _ [] _ _ _ _ Hlook) as [Hin _].
  { intros ? ? HX0. by rewrite lookup_empty in HX0. }
  { intros ? ? HY0. by rewrite lookup_empty in HY0. }
  cbn [app] in Hin.
  apply (trace_node_of model keep_input_layers trace all_nodes d Htrace) in Hd.
  apply list_elem_of_lookup in Hd as [i Hi].
  destruct (Forall2_lookup_r _ _ _ _ _ Hall Hi) as (t & _ & Hentry).
  apply make_entry_links in Hentry as [Hinput Hlayer].
  assert (exists nids, itn !! Y = Some nids /\ n ∈ nids) as (nids & Hnids & Hmem).
  { destruct (is_input_layer (nd_layer d)).
    - destruct (Hinput eq_refl) as [_ HF].
      destruct (Forall2_lookup_lr _ _ _ _ _ _ HF HY Hns) as (nids & ? & ->).
      exists nids. split; [done|].
      apply list_elem_of_fmap in Hn as (m & [= ->] & ?). done.
    - destruct (Hlayer eq_refl) as [_ HYs]. rewrite HYs in Hns.
      rewrite list_lookup_fmap, HY in Hns. cbn in Hns. injection Hns as <-.
      destruct (itn !! Y) as [nids|]; [|by apply list_elem_of_singleton in Hn].
      exists nids. split; [done|].
      apply list_elem_of_fmap in Hn as (m & [= ->] & ?). done. }
  destruct (Hin Y nids Hnids) as [_ Hsound].
  destruct (Hsound n Hmem) as (l' & Xs' & Ys' & Hnode & HYX).
  rewrite <- Hcore in Hnode.
  apply list_elem_of_fmap in Hnode as (d' & Hd' & Hnode).
  exists d'. unfold node_core in Hd'. injection Hd' as Hn' Hl HXs' HYs'.
  split_and!; [|done|by rewrite <- HXs'].
  apply (trace_node_of model keep_input_layers trace all_nodes d' Htrace);
    [done|]. rewrite <- Hn'. eauto.
Qed.

(** [get_model_execution_trace] returns only if every output tensor of
    every input layer of the filtered execution list is an input tensor of
    a node that is not an input layer (otherwise the lookup of line 772
    fails), whether the input layers are kept in the result or not. *)
Theorem execution_trace_inputs_consumed (model : Model)
    (keep_input_layers : bool) (trace : list NodeDict)
    (l : Layer) (Xs Ys : list nat) (Y : nat) :
  get_model_execution_trace model keep_input_layers = inr trace ->
  (l, Xs, Ys) ∈ pruned_execution_list model ->
  is_input_layer l = true ->
  Y ∈ Ys ->
  exists l' Xs' Ys',
    (l', Xs', Ys') ∈ pruned_execution_list model /\
    is_input_layer l' = false /\ Y ∈ Xs'.
Proof.
  intros H Hnode Hl HY.
  apply get_model_execution_trace_inr in H
    as (itn & otn & all_nodes & Hlook & Hall & _).
  destruct (create_lookups_sound _ _ [] _ _ _ _ Hlook) as [Hin _].
  { intros ? ? HX0. by rewrite lookup_empty in HX0. }
  { intros ? ? HY0. by rewrite lookup_empty in HY0. }
  cbn [app] in Hin.
  destruct (enrich_with_nids_node 0 _ _ _ _ Hnode) as [nid Hid].
  apply list_elem_of_lookup in Hid as [i Hi].
  destruct (Forall2_lookup_l _ _ _ _ _ Hall Hi) as (d & _ & Hentry).
  pose proof (make_entry_core _ _ _ _ _ Hentry) as Hcore.
  apply make_entry_links in Hentry as [Hinput _].
  unfold node_core in Hcore. injection Hcore as _ Hdl _ HdYs.
  rewrite Hdl, HdYs in Hinput. destruct (Hinput Hl) as [_ HF].
  apply list_elem_of_lookup in HY as [j Hj].
  destruct (Forall2_lookup_l _ _ _ _ _ HF Hj) as (ns & _ & nids & Hnids & _).
  destruct (Hin Y nids Hnids) as [(n & l' & Xs' & Ys' & Hm & HYX) _].
  apply enrich_with_nids_elem in Hm as (Hm & Hinp & _).
  exists l', Xs', Ys'. split_and!; [done| |done].
  destruct (is_input_layer l'); [by specialize (Hinp eq_refl)|done].
Qed.

Lemma graph_of_trace_lookup (trace : list NodeDict) (k : option nat) :
  fold_left (fun (g : gmap (option nat) (NodeDict + list NodeDict)) node =>
               <[nd_nid node := inl node]> g) trace ∅ !! k
  = inl <$> last (filter (fun d => nd_nid d = k) trace).
Proof.
  induction trace as [|d trace IH] using rev_ind.
  - cbn. by rewrite lookup_empty.
  - rewrite fold_left_app, filter_app. cbn [fold_left].
    rewrite filter_cons, filter_nil.
    destruct (decide (nd_nid d = k)) as [->|Hne].
    + rewrite lookup_insert_eq. by rewrite last_snoc.
    + rewrite lookup_insert_ne by done. by rewrite app_nil_r.
Qed.

Lemma execution_trace_nid_unique (model : Model) (keep_input_layers : bool)
    (trace : list NodeDict) (d d' : NodeDict) (n : nat) :
  get_model_execution_trace model keep_input_layers = inr trace ->
  d ∈ trace -> d' ∈ trace ->
  nd_nid d = Some n -> nd_nid d' = Some n -> d = d'.
Proof.
  intros H Hd Hd' Hn Hn'.
  apply get_model_execution_trace_inr in H
    as (itn & otn & all_nodes & _ & Hall & Htrace).
  pose proof (Forall2_make_entry_core _ _ _ _ _ Hall) as Hcore.
  apply (trace_node_of model keep_input_layers trace all_nodes d Htrace) in Hd.
  apply (trace_node_of model keep_input_layers trace all_nodes d' Htrace) in Hd'.
  apply list_elem_of_lookup in Hd as [i Hi].
  apply list_elem_of_lookup in Hd' as [i' Hi'].
  assert (forall i d, all_nodes !! i = Some d ->
            enrich_with_nids 0 (pruned_execution_list model) !! i
            = Some (node_core d)) as Hpos.
  { intros i0 d0 H0. rewrite <- Hcore, list_lookup_fmap, H0. done. }
  destruct (Nat.lt_total i i') as [Hlt|[->|Hlt]].
  - pose proof (enrich_with_nids_increasing _ _ _ _ _ _ n n
                  (Hpos _ _ Hi) (Hpos _ _ Hi') Hn Hn' Hlt). lia.
  - congruence.
  - pose proof (enrich_with_nids_increasing _ _ _ _ _ _ n n
                  (Hpos _ _ Hi') (Hpos _ _ Hi) Hn' Hn Hlt). lia.
Qed.

(** The execution graph maps a node id to the node of the execution trace
    that carries this id, and to nothing else; the key [None] is present
    exactly when the input layers are kept, and then gives the list of the
    input-layer nodes. *)
Theorem execution_graph_lookup (model : Model) (keep_input_layers : bool)
    (graph : gmap (option nat) (NodeDict + list NodeDict)) :
  get_model_execution_graph model keep_input_layers = inr graph ->
  exists trace,
    get_model_execution_trace model keep_input_layers = inr trace /\
    (forall n v,
       graph !! Some n = Some v <->
       exists d, v = inl d /\ d ∈ trace /\ nd_nid d = Some n) /\
    graph !! None
    = (if keep_input_layers
       then Some (inr (filter (fun node => nd_nid node = None) trace))
       else None).
Proof.
  unfold get_model_execution_graph.
  destruct (get_model_execution_trace model keep_input_layers)
    as [e|trace] eqn:E; cbn [bind]; [done|].
  intros [= <-]. exists trace. split_and!; [done| |].
  - intros n v.
    assert ((if keep_input_layers
             then <[None:=inr (filter (fun node => nd_nid node = None) trace)]>
                    (fold_left
                       (fun (g : gmap (option nat) (NodeDict + list NodeDict))
                            node => <[nd_nid node := inl node]> g) trace ∅)
             else
               fold_left
                 (fun (g : gmap (option nat) (NodeDict + list NodeDict))
                      node => <[nd_nid node := inl node]> g) trace ∅)
            !! Some n
            = inl <$> last (filter (fun d => nd_nid d = Some n) trace)) as ->.
    { destruct keep_input_layers; [rewrite lookup_insert_ne by done|];
        apply graph_of_trace_lookup. }
    split.
    + intros Hv. destruct (last _) as [d|] eqn:El; [|done].
      injection Hv as <-. exists d. split; [done|].
      apply last_Some in El as [l' El].
      assert (d ∈ filter (fun d => nd_nid d = Some n) trace) as Hd.
      { rewrite El. apply elem_of_app. right. by apply list_elem_of_singleton. }
      by apply list_elem_of_filter in Hd as [? ?].
    + intros (d & -> & Hd & Hn).
      destruct (last _) as [d'|] eqn:El.
      * apply last_Some in El as [l' El].
        assert (d' ∈ filter (fun d => nd_nid d = Some n) trace) as Hd'.
        { rewrite El. apply elem_of_app. right.
          by apply list_elem_of_singleton. }
        apply list_elem_of_filter in Hd' as [Hn' Hd'].
        by rewrite (execution_trace_nid_unique _ _ _ d d' n E Hd Hd' Hn Hn').
      * apply last_None in El.
        assert (d ∈ filter (fun d => nd_nid d = Some n) trace) as Hin
          by by apply list_elem_of_filter.
        rewrite El in Hin. by apply elem_of_nil in Hin.
  - destruct keep_input_layers; [by rewrite lookup_insert_eq|].
    rewrite graph_of_trace_lookup.
    apply get_model_execution_trace_inr in E
      as (itn & otn & all_nodes & _ & _ & ->).
    match goal with
    | |- context [last ?l] => assert (l = []) as ->; [|done]
    end.
    induction all_nodes as [|d ds IH]; [done|].
    rewrite (filter_cons _ d).
    destruct (decide (is_Some (nd_nid d))) as [Hs|Hs]; [|done].
    rewrite filter_cons, decide_False; [done|].
    intros Hnone. rewrite Hnone in Hs. by destruct Hs.
Qed.

(** ** [get_bottleneck_nodes] and [get_bottleneck_tensors] *)

Lemma frontier_walk_sublist (adj : nat -> gset nat) (outputs : list nat)
    (records : list ExecNode) (frontier : gset nat) :
  frontier_walk adj outputs records frontier
    `sublist_of` map (fun node : ExecNode =>
                        (fst (fst node), (snd (fst node), snd node)))
                     (layer_nodes records).
Proof.
  unfold layer_nodes. revert frontier.
  induction records as [|[[l Xs] Ys] rest IH]; intros frontier;
    cbn [frontier_walk]; [done|].
  rewrite filter_cons. cbn [fst].
  destruct (is_input_layer l).
  - rewrite decide_False by done. apply IH.
  - rewrite decide_True by done. cbn [map fst snd].
    case_bool_decide; cbn [app].
    + apply sublist_skip, IH.
    + apply sublist_cons, IH.
Qed.

(** The bottleneck nodes are nodes of the execution list that are not
    input layers, in the order of the execution list: no input layer is
    ever reported and no node is reported twice for one occurrence. *)
Theorem get_bottleneck_nodes_sublist (inputs outputs : list nat)
    (execution_list : list ExecNode) (ret : list BottleneckNode) :
  get_bottleneck_nodes inputs outputs execution_list = inr ret ->
  ret `sublist_of` map (fun node : ExecNode =>
                          (fst (fst node), (snd (fst node), snd node)))
                       (layer_nodes execution_list).
Proof.
  unfold get_bottleneck_nodes.
  destruct (open_inputs _ inputs ∅) as [e|oc]; cbn [bind]; [done|].
  intros H. apply bottleneck_loop_inr in H as [_ ->]. cbn [app].
  apply frontier_walk_sublist.
Qed.

Lemma add_single_tensor_NoDup (tensor_list ret : list nat) :
  NoDup ret -> NoDup (add_single_tensor tensor_list ret).
Proof.
  intros Hnd. unfold add_single_tensor.
  destruct tensor_list as [|t [|t' rest]]; [done| |done].
  case_bool_decide as Ht; [done|].
  apply NoDup_app. split_and!; [done| |apply NoDup_singleton].
  intros x Hx ->%list_elem_of_singleton. done.
Qed.

Lemma add_single_tensor_elem (tensor_list ret : list nat) (t : nat) :
  t ∈ add_single_tensor tensor_list ret <-> t ∈ ret \/ tensor_list = [t].
Proof.
  unfold add_single_tensor.
  destruct tensor_list as [|t0 [|t' rest]].
  - split; [by left | by intros [?|?]].
  - case_bool_decide as Ht.
    + split; [by left|]. intros [?|[= ->]]; done.
    + rewrite elem_of_app, list_elem_of_singleton. split.
      * intros [?| ->]; [by left | by right].
      * intros [?|[= ->]]; [by left | by right].
  - split; [by left | by intros [?|?]].
Qed.

(** The bottleneck tensors are returned without duplicates, and a tensor
    is returned exactly when it is the only input tensor or the only output
    tensor of a bottleneck node. *)
Theorem get_bottleneck_tensors_elem (inputs outputs : list nat)
    (execution_list : list ExecNode) (ret : list nat) :
  get_bottleneck_tensors inputs outputs execution_list = inr ret ->
  exists nodes,
    get_bottleneck_nodes inputs outputs execution_list = inr nodes /\
    NoDup ret /\
    forall t, t ∈ ret <->
              exists l Xs Ys, (l, (Xs, Ys)) ∈ nodes /\ (Xs = [t] \/ Ys = [t]).
Proof.
  unfold get_bottleneck_tensors.
  destruct (get_bottleneck_nodes inputs outputs execution_list)
    as [e|nodes]; cbn [bind]; [done|].
  intros [= <-]. exists nodes. split; [done|].
  enough (forall ret0 : list nat,
             NoDup ret0 ->
             let ret := fold_left
                          (fun ret (node : BottleneckNode) =>
                             let '(_, (Xs, Ys)) := node in
                             add_single_tensor Ys (add_single_tensor Xs ret))
                          nodes ret0 in
             NoDup ret /\
             forall t, t ∈ ret <->
               t ∈ ret0 \/
               exists l Xs Ys, (l, (Xs, Ys)) ∈ nodes /\ (Xs = [t] \/ Ys = [t]))
    as H.
  { destruct (H [] (NoDup_nil_2)) as [H1 H2]. split; [done|].
    intros t. rewrite H2. split; [|by right].
    intros [?%elem_of_nil|?]; done. }
  induction nodes as [|[l [Xs Ys]] nodes IH]; intros ret0 Hnd; cbn [fold_left].
  - split; [done|]. intros t. split; [by left|].
    intros [?|(? & ? & ? & ?%elem_of_nil & _)]; done.
  - destruct (IH (add_single_tensor Ys (add_single_tensor Xs ret0)))
      as [IH1 IH2]; [by do 2 apply add_single_tensor_NoDup|].
    split; [done|]. intros t. rewrite IH2, !add_single_tensor_elem. split.
    + intros [[[?|HX]|HY]|(l' & Xs' & Ys' & Hin & Hor)].
      * by left.
      * right. exists l, Xs, Ys. split; [by left | by left].
      * right. exists l, Xs, Ys. split; [by left | by right].
      * right. exists l', Xs', Ys'. split; [by right | done].
    + intros [?|(l' & Xs' & Ys' & Hin & Hor)]; [by do 3 left|].
      apply elem_of_cons in Hin as [[= -> -> ->]|Hin].
      * left. destruct Hor; [left; by right | by right].
      * right. eauto 6.
Qed.

(** ** [reverse_model]: aggregation, caching and failures *)

Section ReverseModelMore.

Context {V Num : Type}.
Variable Add : list V -> V.
Variable Project : BoolOrRange Num -> V -> V.
Variable Clip : Num -> Num -> V -> V.
Variable forward_value : nat -> V.

Implicit Types rt : gmap nat (ReverseTensorDict V).
Implicit Types args : @ReverseArgs V Num.
Implicit Types clip project : BoolOrRange Num.
Implicit Types bt : gset nat.


Lemma add_reversed_tensor_finalized stop nid i X (v : V) rt rt' t f :
  add_reversed_tensor stop nid i X v rt = inr rt' ->
  finalized rt t f -> finalized rt' t f.
Proof.
  unfold add_reversed_tensor, finalized.
  case_bool_decide as HX; [by intros [= <-]|].
  intros H (e & He & Hf).
  destruct (rt !! X) as [tmp|] eqn:E.
  - destruct (tensor tmp) as [t0|]; [|done].
    destruct (tensors tmp); [done|]. injection H as <-.
    destruct (decide (X = t)) as [->|Hne].
    + rewrite lookup_insert_eq. eexists. split; [done|]. cbn. congruence.
    + rewrite lookup_insert_ne by done. eauto.
  - injection H as <-. rewrite lookup_insert_ne; [eauto|]. congruence.
Qed.

(** The reversed tensor of a tensor is computed once: after
    [get_reversed_tensor] has returned [v] for [t], whatever contributions
    are added afterwards without error, it returns [v] again and leaves
    [reversed_tensors] as it is. *)
Theorem get_reversed_tensor_cached stop clip project bt nid i t v
    (Xs : list nat) (vs : list V) rt rt1 rt2 :
  get_reversed_tensor Add Project Clip clip project bt t rt = inr (v, rt1) ->
  add_reversed_tensors_from stop nid i Xs vs rt1 = inr rt2 ->
  get_reversed_tensor Add Project Clip clip project bt t rt2 = inr (v, rt2).
Proof.
  intros Hget Hadd.
  apply get_reversed_tensor_inr in Hget as (_ & Hfin & _).
  assert (finalized rt2 t v) as (e & He & Hf).
  { clear -Hfin Hadd. revert i vs rt1 Hfin Hadd.
    induction Xs as [|X Xs IH]; intros i vs rt1 Hfin; cbn.
    - by intros [= <-].
    - destruct vs as [|v0 vs]; [by intros [= <-]|].
      destruct (add_reversed_tensor stop nid i X v0 rt1) as [e|rt'] eqn:E;
        cbn [bind]; [done|].
      apply IH. by eapply add_reversed_tensor_finalized. }
  unfold get_reversed_tensor. by rewrite He, Hf.
Qed.

Lemma reverse_model_fails_at model args k node bt rt e :
  rev (execution_list_of model args) !! k = Some node ->
  reverse_walk Add Project Clip forward_value k model args = inr (bt, rt) ->
  reverse_node Add Project Clip (stop_of args)
    (clip_all_reversed_tensors_arg args) (project_bottleneck_tensors_arg args)
    bt model
    (initialize_reverse_mappings model (reverse_mappings args)
       (default_reverse_mapping args) (layers_of model args))
    (length (execution_list_of model args)
     - num_input_layers (execution_list_of model args))
    k node rt = inl e ->
  reverse_model Add Project Clip forward_value model args = inl e.
Proof.
  intros Hk Hw Hnode.
  unfold reverse_model, reverse_walk, execution_list_of, layers_of in *.
  destruct (trace_of model args) as [[layers execution_list] outputs].
  cbn [fst snd] in *.
  destruct (is_True _); [done|].
  destruct (bottleneck_tensors_of model args) as [e0|bt0]; cbn [bind] in *;
    [done|].
  destruct (add_reversed_tensors _ _ _ _ _) as [e0|rt0]; cbn [bind] in *;
    [done|].
  destruct (reverse_nodes_from _ _ _ _ _ _ _ _ _ _ _ (take k _) rt0)
    as [e0|rt1] eqn:E; cbn [bind] in *; [done|].
  injection Hw as <- <-.
  rewrite take_ge by by rewrite length_rev.
  rewrite <- (take_drop_middle _ _ _ Hk).
  rewrite reverse_nodes_from_app, E. cbn [bind reverse_nodes_from].
  assert (0 + length (take k (rev execution_list)) = k) as ->.
  { apply lookup_lt_Some in Hk. rewrite length_take. lia. }
  by rewrite Hnode.
Qed.

(** A network met in the execution list makes [reverse_model] fail with
    the exception of line 1203, as soon as the walk reaches it and whether
    its output tensors received contributions or not. *)
Theorem network_in_execution_list_fails model args k l Xs Ys bt rt :
  rev (execution_list_of model args) !! k = Some (l, Xs, Ys) ->
  reverse_walk Add Project Clip forward_value k model args = inr (bt, rt) ->
  layer_class l = Network ->
  reverse_model Add Project Clip forward_value model args
  = inl (Exception network_msg).
Proof.
  intros Hk Hw Hl. eapply reverse_model_fails_at; [exact Hk | exact Hw |].
  unfold reverse_node. by rewrite Hl.
Qed.

Lemma initialize_reverse_mappings_None model
    (rm : Layer -> option (MetaMapping V)) (d : option (ReverseMapping V))
    (layers : list Layer) (l : Layer) :
  l ∉ layers -> initialize_reverse_mappings model rm d layers !! l = None.
Proof.
  unfold initialize_reverse_mappings.
  enough (forall m : gmap Layer (option (ReverseMapping V)),
             l ∉ layers -> m !! l = None ->
             fold_left
               (fun m layer =>
                  <[layer := initialize_reverse_mapping model rm d layer]> m)
               layers m !! l = None) as H.
  { intros Hl. apply H; [done | apply lookup_empty]. }
  induction layers as [|l0 layers IH]; intros m Hl Hm; cbn [fold_left]; [done|].
  apply not_elem_of_cons in Hl as [Hne Hl].
  apply IH; [done|]. by rewrite lookup_insert_ne.
Qed.

(** A node whose layer is not in the list of layers of the execution trace
    makes [reverse_model] fail with [KeyError] for this layer, when the walk
    reaches it with contributions for all its output tensors. *)
Theorem unknown_layer_fails model args k l Xs Ys bt rt :
  rev (execution_list_of model args) !! k = Some (l, Xs, Ys) ->
  reverse_walk Add Project Clip forward_value k model args = inr (bt, rt) ->
  layer_class l = Primitive ->
  l ∉ layers_of model args ->
  Forall (fun y => is_Some (rt !! y)) Ys ->
  reverse_model Add Project Clip forward_value model args
  = inl (KeyError_layer l).
Proof.
  intros Hk Hw Hprim Hl HYs.
  pose proof (reverse_walk_good _ _ _ _ _ _ _ _ _ Hw) as Hgood.
  eapply reverse_model_fails_at; [exact Hk | exact Hw |].
  unfold reverse_node. rewrite Hprim.
  assert (forallb (fun ys => bool_decide (is_Some (rt !! ys))) Ys = true) as ->.
  { apply forallb_forall. intros y Hy. apply bool_decide_eq_true.
    rewrite Forall_forall in HYs. by apply HYs, list_elem_of_In. }
  cbn [negb].
  destruct (get_reversed_tensors_succeeds Add Project Clip
              (clip_all_reversed_tensors_arg args)
              (project_bottleneck_tensors_arg args) bt (stop_of args)
              Ys rt Hgood HYs) as (vs & rt2 & ->).
  cbn [bind fst snd].
  by rewrite initialize_reverse_mappings_None.
Qed.

End ReverseModelMore.

(** ** The exceptions of [reverse_model] *)

Lemma open_forward_error (fc : gmap nat (list nat)) (X : nat) (oc : gset nat)
    (e : PyError) :
  open_forward fc X oc = inl e -> lookup_or_assert e.
Proof. unfold open_forward. destruct (fc !! X); [done|]. by intros [= <-]. Qed.

Lemma open_inputs_error (fc : gmap nat (list nat)) (inputs : list nat)
    (oc : gset nat) (e : PyError) :
  open_inputs fc inputs oc = inl e -> lookup_or_assert e.
Proof.
  revert oc. induction inputs as [|X rest IH]; intros oc; cbn [open_inputs];
    [done|].
  destruct (open_forward fc X oc) as [e0|oc1] eqn:E; cbn [bind].
  - intros [= <-]. by eapply open_forward_error.
  - apply IH.
Qed.

Lemma close_outputs_error (Ys : list nat) (oc : gset nat) (e : PyError) :
  close_outputs Ys oc = inl e -> lookup_or_assert e.
Proof.
  revert oc. induction Ys as [|Y rest IH]; intros oc; cbn [close_outputs];
    [done|].
  case_bool_decide; [apply IH | by intros [= <-]].
Qed.

Lemma reopen_outputs_error (fc : gmap nat (list nat)) (outputs Ys : list nat)
    (oc : gset nat) (e : PyError) :
  reopen_outputs fc outputs Ys oc = inl e -> lookup_or_assert e.
Proof.
  revert oc. induction Ys as [|Y rest IH]; intros oc; cbn [reopen_outputs];
    [done|].
  case_bool_decide; cbn [bind]; [apply IH|].
  destruct (open_forward fc Y oc) as [e0|oc1] eqn:E; cbn [bind].
  - intros [= <-]. by eapply open_forward_error.
  - apply IH.
Qed.

Lemma bottleneck_loop_error (fc : gmap nat (list nat)) (outputs : list nat)
    (execution_list : list ExecNode) (oc : gset nat)
    (ret : list BottleneckNode) (e : PyError) :
  bottleneck_loop fc outputs execution_list oc ret = inl e ->
  lookup_or_assert e.
Proof.
  revert oc ret.
  induction execution_list as [|[[l Xs] Ys] rest IH]; intros oc ret;
    cbn [bottleneck_loop]; [done|].
  destruct (is_input_layer l); [apply IH|].
  destruct (close_outputs Ys oc) as [e0|oc1] eqn:E1; cbn [bind].
  { intros [= <-]. by eapply close_outputs_error. }
  destruct (reopen_outputs fc outputs Ys oc1) as [e0|oc2] eqn:E2; cbn [bind].
  { intros [= <-]. by eapply reopen_outputs_error. }
  apply IH.
Qed.

Lemma get_bottleneck_tensors_error (inputs outputs : list nat)
    (execution_list : list ExecNode) (e : PyError) :
  get_bottleneck_tensors inputs outputs execution_list = inl e ->
  lookup_or_assert e.
Proof.
  unfold get_bottleneck_tensors, get_bottleneck_nodes.
  destruct (open_inputs _ inputs ∅) as [e0|oc] eqn:E; cbn [bind].
  { intros [= <-]. by eapply open_inputs_error. }
  destruct (bottleneck_loop _ _ _ _ _) as [e0|nodes] eqn:E2; cbn [bind]; [|done].
  intros [= <-]. by eapply bottleneck_loop_error.
Qed.

Section ReverseModelErrors.

Context {V Num : Type}.
Variable Add : list V -> V.
Variable Project : BoolOrRange Num -> V -> V.
Variable Clip : Num -> Num -> V -> V.
Variable forward_value : nat -> V.

Implicit Types rt : gmap nat (ReverseTensorDict V).
Implicit Types args : @ReverseArgs V Num.
Implicit Types clip project : BoolOrRange Num.
Implicit Types bt : gset nat.

Lemma add_reversed_tensor_error stop nid i X (v : V) rt e :
  good stop rt ->
  add_reversed_tensor stop nid i X v rt = inl e ->
  e = Exception aggregation_msg.
Proof.
  intros [_ Hok]. unfold add_reversed_tensor.
  case_bool_decide; [done|].
  destruct (rt !! X) as [tmp|] eqn:E; [|done].
  specialize (Hok X tmp E). unfold entry_ok in Hok.
  destruct (tensor tmp), (tensors tmp); try done. by intros [= <-].
Qed.

Lemma add_reversed_tensors_from_error stop nid i Xs (vs : list V) rt e :
  good stop rt ->
  add_reversed_tensors_from stop nid i Xs vs rt = inl e ->
  e = Exception aggregation_msg.
Proof.
  revert i vs rt. induction Xs as [|X Xs IH]; intros i vs rt Hg; cbn; [done|].
  destruct vs as [|v vs]; [done|].
  destruct (add_reversed_tensor stop nid i X v rt) as [e0|rt1] eqn:E;
    cbn [bind].
  - intros [= <-]. by eapply add_reversed_tensor_error.
  - apply IH. by eapply add_reversed_tensor_good.
Qed.

Lemma get_reversed_tensor_error clip project bt stop t rt e :
  good stop rt ->
  get_reversed_tensor Add Project Clip clip project bt t rt = inl e ->
  e = KeyError_tensor t.
Proof.
  intros [_ Hok]. unfold get_reversed_tensor.
  destruct (rt !! t) as [tmp|] eqn:E; [|by intros [= <-]].
  destruct (final_tensor tmp); [done|].
  specialize (Hok t tmp E). unfold entry_ok in Hok. unfold finalize.
  destruct (tensor tmp), (tensors tmp); done.
Qed.

Lemma get_reversed_tensors_error clip project bt stop ts rt e :
  good stop rt ->
  get_reversed_tensors Add Project Clip clip project bt ts rt = inl e ->
  exists t, t ∈ ts /\ e = KeyError_tensor t.
Proof.
  revert rt. induction ts as [|t ts IH]; intros rt Hg;
    cbn [get_reversed_tensors]; [done|].
  destruct (get_reversed_tensor _ _ _ _ _ _ t rt) as [e0|[v rt1]] eqn:E1;
    cbn [bind fst snd].
  - intros [= <-]. exists t. split; [by left|].
    by eapply get_reversed_tensor_error.
  - destruct (get_reversed_tensors _ _ _ _ _ _ ts rt1) as [e0|[vs rt2]] eqn:E2;
      cbn [bind]; [|done].
    intros [= <-].
    apply get_reversed_tensor_inr in E1 as (_ & _ & _ & _ & _ & Hg1).
    destruct (IH rt1 (Hg1 stop Hg) E2) as (t' & Ht' & ->).
    exists t'. split; [by right | done].
Qed.

Lemma reverse_node_error stop clip project bt model init len _nid node rt e :
  good stop rt ->
  reverse_node Add Project Clip stop clip project bt model init len _nid node rt
    = inl e ->
  reversal_error e.
Proof.
  intros Hg. destruct node as [[l Xs] Ys]. unfold reverse_node.
  destruct (layer_class l); [done | intros [= <-]; cbn; by right |].
  destruct (negb _); [done|].
  destruct (get_reversed_tensors _ _ _ _ _ _ Ys rt) as [e0|[vs rt1]] eqn:E;
    cbn [bind fst snd].
  { intros [= <-].
    by destruct (get_reversed_tensors_error _ _ _ _ _ _ _ Hg E) as (t & _ & ->). }
  destruct (init !! l) as [[rm|]|]; [|by intros [= <-]|by intros [= <-]].
  intros H. unfold add_reversed_tensors in H.
  apply add_reversed_tensors_from_error in H as ->; [cbn; by left|].
  by apply (get_reversed_tensors_inr _ _ _ _ _ _ _ _ _ _ E).
Qed.

Lemma reverse_nodes_from_error stop clip project bt model init len _nid nodes
    rt e :
  good stop rt ->
  reverse_nodes_from Add Project Clip stop clip project bt model init len
                     _nid nodes rt = inl e ->
  reversal_error e.
Proof.
  revert _nid rt. induction nodes as [|node rest IH]; intros _nid rt Hg; cbn;
    [done|].
  destruct (reverse_node _ _ _ _ _ _ _ _ _ _ _nid node rt) as [e0|rt1] eqn:E;
    cbn [bind].
  - intros [= <-]. by eapply reverse_node_error.
  - apply IH. by eapply reverse_node_good.
Qed.

Lemma lookup_or_assert_reversal_error (e : PyError) :
  lookup_or_assert e -> reversal_error e.
Proof. by destruct e. Qed.

(** The exceptions [reverse_model] raises are [NotImplementedError] for
    [clip_all_reversed_tensors=True], [KeyError] for a tensor or a layer,
    [AssertionError] (from the bottleneck detection), the [TypeError] of
    calling [None], and the two exceptions of lines 1084 and 1203. In
    particular the exception of line 1079 ("Wrong order, tensors already
    aggregated!") is never raised, and [keras.layers.Add] is never applied
    to a missing list. *)
Theorem reverse_model_errors model args e :
  reverse_model Add Project Clip forward_value model args = inl e ->
  reversal_error e /\
  e <> Exception wrong_order_msg /\
  (forall msg, e <> ValueError msg).
Proof.
  intros H.
  assert (reversal_error e) as He.
  { unfold reverse_model in H.
    destruct (trace_of model args) as [[layers execution_list] outputs] eqn:Et.
    destruct (reverse_walk _ _ _ _ _ model args) as [e0|[bt rt]] eqn:Ew;
      cbn [bind] in H.
    - injection H as <-. unfold reverse_walk in Ew. rewrite Et in Ew.
      destruct (is_True _); [by injection Ew as <-|].
      destruct (bottleneck_tensors_of model args) as [e1|bt0] eqn:Eb;
        cbn [bind] in Ew.
      { injection Ew as <-. unfold bottleneck_tensors_of in Eb.
        rewrite Et in Eb. destruct (truthy _); [|done].
        destruct (get_bottleneck_tensors _ _ _) as [e2|ts] eqn:Egb;
          cbn [bind] in Eb; [|done].
        injection Eb as <-. apply lookup_or_assert_reversal_error.
        by eapply get_bottleneck_tensors_error. }
      destruct (add_reversed_tensors _ _ _ _ _) as [e1|rt0] eqn:E0;
        cbn [bind] in Ew.
      { injection Ew as <-. unfold add_reversed_tensors in E0.
        apply add_reversed_tensors_from_error in E0 as ->;
          [cbn; by left | apply good_empty]. }
      destruct (reverse_nodes_from _ _ _ _ _ _ _ _ _ _ _ _ rt0) as [e1|rt1]
        eqn:E1; cbn [bind] in Ew; [|done].
      injection Ew as <-.
      eapply reverse_nodes_from_error; [|exact E1].
      eapply add_reversed_tensors_from_good; [exact E0 | apply good_empty].
    - apply reverse_walk_good in Ew.
      destruct (get_reversed_tensors _ _ _ _ _ _ _ _) as [e1|r] eqn:Eg;
        cbn [bind] in H.
      + injection H as <-.
        by destruct (get_reversed_tensors_error _ _ _ _ _ _ _ Ew Eg)
          as (t & _ & ->).
      + by destruct (return_all_reversed_tensors args). }
  split_and!; [done| |].
  - intros ->. cbn in He. by destruct He.
  - by intros msg ->.
Qed.

End ReverseModelErrors.

(** ** [reverse_model]: the keys of [reversed_tensors] and linear chains *)

Section ReverseModelKeys.

Context {V Num : Type}.
Variable Add : list V -> V.
Variable Project : BoolOrRange Num -> V -> V.
Variable Clip : Num -> Num -> V -> V.
Variable forward_value : nat -> V.

Implicit Types rt : gmap nat (ReverseTensorDict V).
Implicit Types args : @ReverseArgs V Num.
Implicit Types clip project : BoolOrRange Num.
Implicit Types bt : gset nat.

Lemma add_reversed_tensor_keys stop nid i X (v : V) rt rt' t :
  add_reversed_tensor stop nid i X v rt = inr rt' ->
  is_Some (rt' !! t) -> is_Some (rt !! t) \/ t = X.
Proof.
  unfold add_reversed_tensor. case_bool_decide as HX; [intros [= <-]; by left|].
  destruct (decide (t = X)) as [->|Hne]; [by right|].
  destruct (rt !! X) as [tmp|] eqn:E.
  - destruct (tensor tmp); [|done]. destruct (tensors tmp); [done|].
    intros [= <-]. rewrite lookup_insert_ne by done. by left.
  - intros [= <-]. rewrite lookup_insert_ne by done. by left.
Qed.

Lemma add_reversed_tensors_from_keys stop nid i Xs (vs : list V) rt rt' t :
  add_reversed_tensors_from stop nid i Xs vs rt = inr rt' ->
  is_Some (rt' !! t) -> is_Some (rt !! t) \/ t ∈ Xs.
Proof.
  revert i vs rt. induction Xs as [|X Xs IH]; intros i vs rt;
    cbn [add_reversed_tensors_from].
  - intros [= <-]. by left.
  - destruct vs as [|v vs]; [intros [= <-]; by left|].
    destruct (add_reversed_tensor stop nid i X v rt) as [e|rt1] eqn:E;
      cbn [bind]; [done|].
    intros H Ht. destruct (IH _ _ _ H Ht) as [Ht1|Ht1].
    + destruct (add_reversed_tensor_keys _ _ _ _ _ _ _ _ E Ht1) as [?| ->];
        [by left | right; by left].
    + right. by right.
Qed.

Lemma reverse_node_keys stop clip project bt model init len _nid
    (l : Layer) (Xs Ys : list nat) rt rt' t :
  reverse_node Add Project Clip stop clip project bt model init len _nid
               (l, Xs, Ys) rt = inr rt' ->
  is_Some (rt' !! t) ->
  is_Some (rt !! t) \/ (layer_class l = Primitive /\ t ∈ Xs).
Proof.
  unfold reverse_node.
  destruct (layer_class l); [intros [= <-]; by left | done |].
  destruct (negb _); [intros [= <-]; by left|].
  destruct (get_reversed_tensors _ _ _ _ _ _ Ys rt) as [e|[vs rt1]] eqn:E;
    cbn [bind fst snd]; [done|].
  destruct (init !! l) as [[rm|]|]; [|done|done].
  intros H Ht. unfold add_reversed_tensors in H.
  destruct (add_reversed_tensors_from_keys _ _ _ _ _ _ _ _ H Ht) as [Ht1|Ht1].
  - left. by apply (get_reversed_tensors_inr _ _ _ _ _ _ _ _ _ _ E).
  - by right.
Qed.

Lemma reverse_nodes_from_keys stop clip project bt model init len _nid
    (nodes : list ExecNode) rt rt' t :
  reverse_nodes_from Add Project Clip stop clip project bt model init len
                     _nid nodes rt = inr rt' ->
  is_Some (rt' !! t) ->
  is_Some (rt !! t) \/
  exists l Xs Ys, (l, Xs, Ys) ∈ nodes /\ layer_class l = Primitive /\ t ∈ Xs.
Proof.
  revert _nid rt. induction nodes as [|[[l Xs] Ys] rest IH]; intros _nid rt;
    cbn [reverse_nodes_from].
  - intros [= <-]. by left.
  - destruct (reverse_node _ _ _ _ _ _ _ _ _ _ _nid _ rt) as [e|rt1] eqn:E;
      cbn [bind]; [done|].
    intros H Ht. destruct (IH _ _ H Ht) as [Ht1|(l' & Xs' & Ys' & Hin & Hp)].
    + destruct (reverse_node_keys _ _ _ _ _ _ _ _ _ _ _ _ _ _ E Ht1)
        as [?|[? ?]]; [by left|].
      right. exists l, Xs, Ys. split; [by left | done].
    + right. exists l', Xs', Ys'. split; [by right | done].
Qed.

(** The dictionary returned with [return_all_reversed_tensors=True] has
    entries only for output tensors of the model and for input tensors of
    nodes of the execution list that are neither input layers nor
    networks. *)
Theorem reversed_tensors_keys model args vals rt t :
  reverse_model Add Project Clip forward_value model args
    = inr (ReversedAll vals rt) ->
  is_Some (rt !! t) ->
  t ∈ outputs_of model args \/
  exists l Xs Ys,
    (l, Xs, Ys) ∈ execution_list_of model args /\
    layer_class l = Primitive /\ t ∈ Xs.
Proof.
  intros H Ht.
  apply reverse_model_inr in H as (bt & rt0 & vals0 & rt' & Hw & Hg & Hres).
  assert (rt' = rt) as ->
    by (destruct (return_all_reversed_tensors args); congruence).
  apply get_reversed_tensors_inr in Hg as (_ & _ & _ & Hdom & _).
  apply Hdom in Ht. clear Hdom Hres.
  unfold reverse_walk, outputs_of, execution_list_of in *.
  destruct (trace_of model args) as [[layers execution_list] outputs].
  cbn [fst snd] in *.
  destruct (is_True _); [done|].
  destruct (bottleneck_tensors_of model args) as [e|bt0]; cbn [bind] in Hw;
    [done|].
  destruct (add_reversed_tensors _ _ _ _ _) as [e|rt1] eqn:E0;
    cbn [bind] in Hw; [done|].
  destruct (reverse_nodes_from _ _ _ _ _ _ _ _ _ _ _ _ rt1) as [e|rt2] eqn:E1;
    cbn [bind] in Hw; [done|].
  injection Hw as <- <-.
  destruct (reverse_nodes_from_keys _ _ _ _ _ _ _ _ _ _ _ _ E1 Ht)
    as [Ht1|(l & Xs & Ys & Hin & Hp)].
  - left. unfold add_reversed_tensors in E0.
    destruct (add_reversed_tensors_from_keys _ _ _ _ _ _ _ _ E0 Ht1)
      as [[? Hempty]|?]; [|done].
    by rewrite lookup_empty in Hempty.
  - right. exists l, Xs, Ys. split; [|done].
    rewrite take_ge in Hin by by rewrite length_rev.
    apply list_elem_of_In. apply in_rev. by apply list_elem_of_In.
Qed.

End ReverseModelKeys.

Section ChainReversal.

Context {V Num : Type}.
Variable Add : list V -> V.
Variable Project : BoolOrRange Num -> V -> V.
Variable Clip : Num -> Num -> V -> V.
Variable forward_value : nat -> V.

Implicit Types rt : gmap nat (ReverseTensorDict V).

Lemma chain_end_elem (t0 : nat) (steps : list (Layer * nat)) :
  chain_end t0 steps ∈ t0 :: map snd steps.
Proof.
  revert t0. induction steps as [|[l t1] rest IH]; intros t0; cbn.
  - by left.
  - right. apply IH.
Qed.

Lemma get_pending bt t v rt :
  pending rt t v ->
  exists e,
    rt !! t = Some e /\
    get_reversed_tensor Add Project Clip (IsBool false) (IsBool false) bt t rt
    = inr (v, <[t := {| id_ := id_ e; tensor := tensor e;
                        tensors := tensors e; final_tensor := Some v |}]> rt).
Proof.
  intros (e & He & Ht & Hts & Hf). exists e. split; [done|].
  unfold get_reversed_tensor, finalize. rewrite He, Hf, Ht. done.
Qed.

Lemma reverse_chain_nodes model
    (init : gmap Layer (option (ReverseMapping V))) (len : nat) (bt : gset nat)
    (steps : list (Layer * nat)) :
  forall (t0 _nid : nat) rt0 (v : V),
    NoDup (t0 :: map snd steps) ->
    Forall (fun s => layer_class (fst s) = Primitive /\
                     init !! fst s = Some (Some pass_through)) steps ->
    pending rt0 (chain_end t0 steps) v ->
    (forall t, t ∈ t0 :: map snd steps -> t <> chain_end t0 steps ->
               rt0 !! t = None) ->
    exists rt,
      reverse_nodes_from Add Project Clip [] (IsBool false) (IsBool false) bt
        model init len _nid (rev (chain_nodes t0 steps)) rt0 = inr rt /\
      pending rt t0 v /\
      (forall t, t ∉ t0 :: map snd steps -> rt !! t = rt0 !! t).
Proof.
  induction steps as [|[l t1] rest IH]; intros t0 _nid rt0 v Hnd Hall Hp Hnone.
  - exists rt0. by split_and!.
  - cbn [chain_nodes chain_end map snd rev] in *.
    apply NoDup_cons in Hnd as [Ht0 Hnd].
    apply Forall_cons in Hall as [[Hprim Hinit] Hall]. cbn [fst] in *.
    destruct (IH t1 _nid rt0 v Hnd Hall Hp) as (rt1 & Hwalk & Hp1 & Hout).
    { intros t Ht Hne. apply Hnone; [by right | done]. }
    rewrite reverse_nodes_from_app, Hwalk.
    cbn [bind reverse_nodes_from]. unfold reverse_node.
    unfold ReverseMapping in *. rewrite Hprim, Hinit.
    destruct (get_pending bt t1 v rt1 Hp1) as (e1 & He1 & Hget).
    cbn [forallb]. rewrite bool_decide_eq_true_2 by eauto.
    cbn [andb negb get_reversed_tensors]. rewrite Hget.
    cbn [bind fst snd get_reversed_tensors].
    unfold pass_through, add_reversed_tensors.
    cbn [add_reversed_tensors_from]. unfold add_reversed_tensor.
    rewrite bool_decide_eq_false_2 by apply not_elem_of_nil.
    assert (t0 <> t1) as Hne by (intros ->; apply Ht0; by left).
    assert (rt1 !! t0 = None) as Hrt1.
    { rewrite Hout by done. apply Hnone; [by left|].
      intros ->. apply Ht0. apply chain_end_elem. }
    rewrite lookup_insert_ne by done. rewrite Hrt1. cbn [bind].
    eexists. split_and!; [done| |].
    + eexists. rewrite lookup_insert_eq. by split_and!.
    + intros t Ht. apply not_elem_of_cons in Ht as [Ht Ht'].
      rewrite lookup_insert_ne by done.
      rewrite lookup_insert_ne by (intros ->; apply Ht'; by left).
      by apply Hout.
Qed.

(** A linear chain of layers reversed with the mapping that hands the
    reversed outputs back unchanged: the reversed tensor of the input of
    the chain is the value the head mapping gives to the output of the
    chain (the output itself when no head mapping is given). *)
Theorem linear_chain_reversal model (head : option (nat -> V))
    (layers : list Layer) (t0 : nat) (steps : list (Layer * nat)) :
  model_inputs model = [t0] ->
  NoDup (t0 :: map snd steps) ->
  Forall (fun s => layer_class (fst s) = Primitive /\ fst s ∈ layers) steps ->
  reverse_model (Num := Num) Add Project Clip forward_value model
                (chain_args head layers t0 steps)
  = inr (ReversedInputs
           [default forward_value head (chain_end t0 steps)]).
Proof.
  intros Hin Hnd Hall.
  set (v := default forward_value head (chain_end t0 steps)).
  set (rt0 := (<[chain_end t0 steps :=
                   {| id_ := ((-1)%Z, 0); tensor := Some v; tensors := None;
                      final_tensor := None |}]> ∅
               : gmap nat (ReverseTensorDict V))).
  destruct (reverse_chain_nodes model
              (initialize_reverse_mappings model
                 (fun _ => Some (MappingFunction pass_through)) None layers)
              (length (chain_nodes t0 steps)
               - num_input_layers (chain_nodes t0 steps))
              ∅ steps t0 0 rt0 v Hnd) as (rt & Hwalk & Hp & _).
  { eapply Forall_impl; [exact Hall|]. intros s [Hprim Hl]. split; [done|].
    by rewrite initialize_reverse_mappings_lookup. }
  { eexists. subst rt0. rewrite lookup_insert_eq. by split_and!. }
  { intros t _ Hne. subst rt0. rewrite lookup_insert_ne by done.
    apply lookup_empty. }
  unfold reverse_model, reverse_walk, returned_inputs, stop_of, head_of,
    bottleneck_tensors_of, trace_of, chain_args.
  cbn [execution_trace_arg clip_all_reversed_tensors_arg
       project_bottleneck_tensors_arg stop_mapping_at_tensors_arg
       head_mapping reverse_mappings default_reverse_mapping
       return_all_reversed_tensors is_True truthy default bind].
  unfold add_reversed_tensors. cbn [map add_reversed_tensors_from].
  unfold add_reversed_tensor.
  rewrite bool_decide_eq_false_2 by apply not_elem_of_nil.
  rewrite lookup_empty. cbn [bind].
  rewrite take_ge by by rewrite length_rev.
  fold v. fold rt0. rewrite Hwalk. cbn [bind fst snd].
  rewrite Hin. rewrite filter_cons, filter_nil.
  rewrite decide_True by apply not_elem_of_nil.
  destruct (get_pending ∅ t0 v rt Hp) as (e & He & Hget).
  cbn [get_reversed_tensors]. rewrite Hget. done.
Qed.

End ChainReversal.

(** ** Bottlenecks of a linear chain *)

Lemma forward_adjacency_unused (nodes : list ExecNode) (t : nat) :
  Forall (fun node : ExecNode => t ∉ snd (fst node)) nodes ->
  forward_adjacency nodes t = ∅.
Proof.
  unfold forward_adjacency. induction 1 as [|[[l Xs] Ys] rest Hn _ IH];
    [done|].
  cbn [flat_map]. rewrite list_to_set_app_L, IH. cbn in Hn.
  destruct (is_input_layer l); [set_solver|].
  rewrite bool_decide_eq_false_2 by done. set_solver.
Qed.

Lemma forward_adjacency_single (before after : list ExecNode) (l : Layer)
    (a b : nat) :
  is_input_layer l = false ->
  Forall (fun node : ExecNode => a ∉ snd (fst node)) before ->
  Forall (fun node : ExecNode => a ∉ snd (fst node)) after ->
  forward_adjacency (before ++ (l, [a], [b]) :: after) a = {[b]}.
Proof.
  intros Hl Hb Ha.
  pose proof (forward_adjacency_unused before a Hb) as Eb.
  pose proof (forward_adjacency_unused after a Ha) as Ea.
  unfold forward_adjacency in *.
  rewrite flat_map_app, list_to_set_app_L, Eb. cbn [flat_map].
  rewrite list_to_set_app_L, Ea, Hl.
  rewrite bool_decide_eq_true_2 by (apply elem_of_cons; by left).
  set_solver.
Qed.

Lemma chain_nodes_inputs (a : nat) (steps : list (Layer * nat)) :
  Forall (fun node : ExecNode =>
            exists x, snd (fst node) = [x] /\ x ∈ a :: map snd steps)
         (chain_nodes a steps).
Proof.
  revert a. induction steps as [|[l b] rest IH]; intros a;
    cbn [chain_nodes map snd]; [done|].
  constructor.
  - exists a. split; [done | by left].
  - eapply Forall_impl; [apply IH|]. intros node (x & Hx & Hin).
    exists x. split; [done | by right].
Qed.

Lemma chain_walk (outputs_end : nat) (steps : list (Layer * nat)) :
  forall (a : nat) (before : list ExecNode),
    let full := before ++ chain_nodes a steps in
    chain_end a steps = outputs_end ->
    NoDup (a :: map snd steps) ->
    Forall (fun s => is_input_layer (fst s) = false) steps ->
    Forall (fun node : ExecNode =>
              forall x, x ∈ snd (fst node) -> x ∉ map snd steps) before ->
    frontier_walk_ok full (forward_adjacency full) [outputs_end]
                     (chain_nodes a steps) (chain_frontier steps) /\
    frontier_walk (forward_adjacency full) [outputs_end]
                  (chain_nodes a steps) (chain_frontier steps)
    = map (fun node : ExecNode =>
             (fst (fst node), (snd (fst node), snd node)))
          (chain_nodes a steps).
Proof.
  induction steps as [|[l b] rest IH]; intros a before full Hend Hnd Hall Hbefore.
  - by split.
  - cbn [chain_nodes chain_end chain_frontier map snd fst] in *.
    apply NoDup_cons in Hnd as [Ha Hnd].
    apply Forall_cons in Hall as [Hl Hall]. cbn [fst] in Hl.
    assert (full = (before ++ [(l, [a], [b])]) ++ chain_nodes b rest) as Hfull
      by (subst full; by rewrite <- app_assoc).
    destruct (IH b (before ++ [(l, [a], [b])]) Hend Hnd Hall) as [IHok IHwalk].
    { apply Forall_app. split.
      - eapply Forall_impl; [exact Hbefore|]. intros node H x Hx.
        specialize (H x Hx). intros Hin. apply H. by right.
      - constructor; [|done]. cbn. intros x ->%list_elem_of_singleton Hin.
        apply Ha. by right. }
    rewrite <- Hfull in IHok, IHwalk.
    cbn [frontier_walk_ok frontier_walk]. rewrite Hl.
    assert (({[b]} : gset nat) ∖ list_to_set [b] = ∅) as Hrem by set_solver.
    rewrite Hrem. rewrite bool_decide_eq_true_2 by done.
    assert (filter (fun y => y ∉ [outputs_end]) [b]
            = match rest with [] => [] | _ => [b] end) as Hfilter.
    { rewrite filter_cons, filter_nil. destruct rest as [|[l2 c] rest'].
      - cbn in Hend. subst. rewrite decide_False; [done|].
        intros H. apply H. by left.
      - rewrite decide_True; [done|]. intros ->%list_elem_of_singleton.
        apply NoDup_cons in Hnd as [Hb _]. apply Hb.
        cbn [chain_end] in Hend. rewrite <- Hend. apply chain_end_elem. }
    rewrite Hfilter.
    assert (∅ ∪ expand (forward_adjacency full)
                       match rest with [] => [] | _ => [b] end
            = chain_frontier rest /\
            Forall (consumed full) match rest with [] => [] | _ => [b] end)
      as [Hfront Hcons].
    { destruct rest as [|[l2 c] rest'].
      - split; [unfold expand; cbn; set_solver | done].
      - cbn [chain_frontier]. apply Forall_cons in Hall as [Hl2 Hall].
        cbn [fst] in Hl2. cbn [chain_nodes] in Hfull. split.
        + unfold expand. cbn [fmap list_fmap union_list foldr].
          rewrite Hfull, forward_adjacency_single; [set_solver|done| |].
          * apply Forall_app. split.
            -- eapply Forall_impl; [exact Hbefore|]. intros node H Hin.
               apply (H b Hin). by left.
            -- constructor; [|done]. cbn. intros ->%list_elem_of_singleton.
               apply Ha. by left.
          * pose proof (chain_nodes_inputs c rest') as Hin.
            eapply Forall_impl; [exact Hin|]. intros node (x & -> & Hx).
            intros ->%list_elem_of_singleton.
            apply NoDup_cons in Hnd as [Hb _]. by apply Hb.
        + constructor; [|done]. unfold consumed. rewrite Hfull.
          apply Exists_app. right. apply Exists_cons. left.
          split; [done | by left]. }
    rewrite Hfront. split.
    + split_and!; [apply NoDup_singleton | | done | done].
      constructor; [set_solver | done].
    + cbn [app map fst snd]. by rewrite IHwalk.
Qed.

(** In a linear chain of at least one layer, from the input of the chain to
    its end, [get_bottleneck_nodes] returns every node of the chain. *)
Theorem linear_chain_bottlenecks (t0 : nat) (steps : list (Layer * nat)) :
  steps <> [] ->
  NoDup (t0 :: map snd steps) ->
  Forall (fun s => is_input_layer (fst s) = false) steps ->
  get_bottleneck_nodes [t0] [chain_end t0 steps] (chain_nodes t0 steps)
  = inr (map (fun node : ExecNode =>
                (fst (fst node), (snd (fst node), snd node)))
             (chain_nodes t0 steps)).
Proof.
  intros Hne Hnd Hall.
  destruct (chain_walk (chain_end t0 steps) steps t0 [] eq_refl Hnd Hall)
    as [Hok Hwalk]; [done|].
  cbn [app] in Hok, Hwalk.
  destruct steps as [|[l t1] rest]; [done|]. clear Hne.
  assert (expand (forward_adjacency (chain_nodes t0 ((l, t1) :: rest))) [t0]
          = chain_frontier ((l, t1) :: rest)) as Hexp.
  { unfold expand. cbn [fmap list_fmap union_list foldr chain_frontier].
    cbn [chain_nodes].
    pose proof (forward_adjacency_single [] (chain_nodes t1 rest) l t0 t1)
      as Hadj.
    cbn [app] in Hadj. rewrite Hadj.
    - set_solver.
    - apply Forall_cons in Hall as [Hl _]. done.
    - done.
    - pose proof (chain_nodes_inputs t1 rest) as Hin.
      eapply Forall_impl; [exact Hin|]. intros node (x & -> & Hx).
      intros ->%list_elem_of_singleton.
      apply NoDup_cons in Hnd as [Ht0 _]. by apply Ht0. }
  unfold get_bottleneck_nodes.
  assert (open_inputs
            (make_forward_connections (chain_nodes t0 ((l, t1) :: rest))) [t0] ∅
          = inr (∅ ∪ expand
                   (forward_adjacency (chain_nodes t0 ((l, t1) :: rest))) [t0]))
    as ->.
  { apply open_inputs_inr. split; [|done]. constructor; [|done].
    unfold consumed. cbn [chain_nodes]. apply Exists_cons. left.
    apply Forall_cons in Hall as [Hl _]. split; [done | by left]. }
  cbn [bind]. apply bottleneck_loop_inr. rewrite Hexp.
  replace (∅ ∪ chain_frontier ((l, t1) :: rest))
    with (chain_frontier ((l, t1) :: rest)) by set_solver.
  split; [done|]. by rewrite Hwalk.
Qed.

(** ** [get_model_layers] and [model_contains] *)

Lemma KerasLayer_nested_ind (P : KerasLayer -> Prop) :
  (forall l inner, Forall P inner -> P (KLayer l inner)) ->
  forall layer, P layer.
Proof.
  intros H. fix IH 1. intros [l inner]. apply H.
  induction inner as [|layer inner IHinner]; constructor; [apply IH | done].
Qed.

Lemma fresh_app (seen new1 new2 : list Layer) :
  fresh seen (new1 ++ new2) <-> fresh seen new1 /\ fresh (seen ++ new1) new2.
Proof.
  unfold fresh. rewrite NoDup_app. setoid_rewrite elem_of_app. split.
  - intros (H1 & H2 & H3 & H4). split_and!; [by auto|done| |done].
    intros x Hx [Hs|Hn]; [by apply (H1 x); auto | by apply (H3 x)].
  - intros ((H1 & H2) & (H3 & H4)). split_and!; [|done| |done].
    + intros x [Hx|Hx]; [by apply H1|]. intros Hs. apply (H3 x Hx). by left.
    + intros x Hx Hx2. apply (H3 x Hx2). by right.
Qed.

Lemma collect_layers_inner (inner : list KerasLayer) (layers : list Layer) :
  (fix collect_inner (container_layers : list KerasLayer)
       (layers : list Layer) : PyError + list Layer :=
     match container_layers with
     | [] => inr layers
     | layer :: rest =>
         ls <-- collect_layer layer layers ;; collect_inner rest ls
     end) inner layers
  = collect_layers inner layers.
Proof.
  revert layers. induction inner as [|layer rest IH]; intros layers; [done|].
  cbn [collect_layers]. destruct (collect_layer layer layers); [done|].
  cbn [bind]. apply IH.
Qed.

Lemma collect_layers_spec_from (container_layers : list KerasLayer) :
  Forall (fun layer =>
            forall seen res,
              collect_layer layer seen = inr res <->
              fresh seen (nested_layers layer) /\
              res = seen ++ nested_layers layer) container_layers ->
  forall seen res,
    collect_layers container_layers seen = inr res <->
    fresh seen (flat_map nested_layers container_layers) /\
    res = seen ++ flat_map nested_layers container_layers.
Proof.
  induction 1 as [|layer rest Hlayer _ IH]; intros seen res;
    cbn [collect_layers flat_map].
  - rewrite app_nil_r. unfold fresh. split.
    + intros [= <-]. split_and!; [by intros x ?%elem_of_nil | constructor | done].
    + by intros [_ ->].
  - rewrite fresh_app.
    destruct (collect_layer layer seen) as [e|ls] eqn:E; cbn [bind].
    + split; [done|]. intros [[Hf _] _].
      assert (collect_layer layer seen = inr (seen ++ nested_layers layer))
        as E' by by apply Hlayer.
      congruence.
    + apply Hlayer in E as [Hf ->]. rewrite IH, <- app_assoc. tauto.
Qed.

Lemma collect_layer_spec (layer : KerasLayer) (seen res : list Layer) :
  collect_layer layer seen = inr res <->
  fresh seen (nested_layers layer) /\ res = seen ++ nested_layers layer.
Proof.
  revert seen res. induction layer as [l inner IH] using KerasLayer_nested_ind.
  intros seen res. cbn [collect_layer nested_layers].
  rewrite collect_layers_inner.
  change (l :: (if is_network l then flat_map nested_layers inner else []))
    with ([l] ++ (if is_network l then flat_map nested_layers inner else [])).
  rewrite fresh_app, app_assoc.
  assert (fresh seen [l] <-> l ∉ seen) as ->.
  { unfold fresh. split.
    - intros [H _]. apply H. by left.
    - intros H. split; [by intros x ->%list_elem_of_singleton |
                        apply NoDup_singleton]. }
  case_bool_decide as Hl; [split; [done | tauto]|].
  destruct (is_network l).
  - rewrite (collect_layers_spec_from inner IH). tauto.
  - rewrite app_nil_r. unfold fresh. split.
    + intros [= <-]. split_and!; [done | by intros x ?%elem_of_nil |
                                  constructor | done].
    + by intros [_ ->].
Qed.

(** [get_model_layers] returns exactly when no layer occurs twice in the
    nesting of the layers of the model (a shared layer makes the [assert]
    of line 394 fail), and it returns the layers of the nesting, a
    container before the layers it contains. *)
Theorem get_model_layers_nested (model_layers : list KerasLayer)
    (layers : list Layer) :
  get_model_layers model_layers = inr layers <->
  NoDup (flat_map nested_layers model_layers) /\
  layers = flat_map nested_layers model_layers.
Proof.
  unfold get_model_layers.
  rewrite (collect_layers_spec_from model_layers).
  - unfold fresh. cbn [app]. split.
    + by intros [[_ ?] ?].
    + intros [? ?]. split_and!; [by intros x _ ?%elem_of_nil | done | done].
  - apply Forall_forall. intros layer _ seen res. apply collect_layer_spec.
Qed.

(** [model_contains] returns one list per condition; the list of a
    condition holds, without repetition, exactly the layers of the nesting
    that satisfy the condition. *)
Theorem model_contains_elem (model_layers : list KerasLayer)
    (layer_condition : list (Layer -> bool)) (ret : list (list Layer)) :
  model_contains model_layers layer_condition = inr ret ->
  length ret = length layer_condition /\
  forall i c ls,
    layer_condition !! i = Some c -> ret !! i = Some ls ->
    NoDup ls /\
    forall l, l ∈ ls <->
              l ∈ flat_map nested_layers model_layers /\ c l = true.
Proof.
  unfold model_contains.
  destruct (get_model_layers model_layers) as [e|layers] eqn:E; cbn [bind];
    [done|].
  unfold get_model_layers in E.
  apply (collect_layers_spec_from model_layers) in E as [[_ Hnd] ->];
    [|apply Forall_forall; intros layer _ seen res; apply collect_layer_spec].
  cbn [app]. intros [= <-]. split; [by rewrite length_map|].
  intros i c ls Hc Hls. rewrite list_lookup_fmap, Hc in Hls.
  injection Hls as <-. split.
  - by apply NoDup_filter.
  - intros l. rewrite list_elem_of_filter. tauto.
Qed.

(** ** [get_symbolic_weight_names] and [update_symbolic_weights] *)

Lemma weight_names_fold (layer : WeightedLayer) (ws : list nat)
    (ret : list string) :
  fold_left
    (fun ret weight =>
       match find_weight_name layer weight with
       | Some attr_name => ret ++ [attr_name]
       | None => ret
       end) ws ret
  = ret ++ omap (find_weight_name layer) ws.
Proof.
  revert ret. induction ws as [|w ws IH]; intros ret; cbn [fold_left omap].
  - by rewrite app_nil_r.
  - rewrite IH. cbn [omap list_omap].
    destruct (find_weight_name layer w); [by rewrite <- app_assoc | done].
Qed.

Lemma omap_all_found {A B : Type} (f : A -> option B) (l : list A) :
  length (omap f l) <= length l /\
  (length l = length (omap f l) -> Forall2 (fun a b => f a = Some b) l (omap f l)).
Proof.
  induction l as [|a l [IH1 IH2]]; [by split|]. cbn [omap list_omap length].
  destruct (f a) as [b|] eqn:E; cbn [length].
  - split; [lia|]. intros H. constructor; [done|]. apply IH2. lia.
  - fold (omap f l). split; [lia|]. intros H. lia.
Qed.

Lemma Forall2_omap {A B : Type} (f : A -> option B) (l : list A) (r : list B) :
  Forall2 (fun a b => f a = Some b) l r -> omap f l = r.
Proof.
  induction 1 as [|a b l r Hab _ IH]; [done|].
  cbn [omap list_omap]. rewrite Hab. fold (omap f l). by rewrite IH.
Qed.

(** [get_symbolic_weight_names] returns exactly when every weight is bound
    to an attribute named among the good guesses or in [dir(layer)]; the
    name it returns for a weight is the first such name, the good guesses
    being tried first. Otherwise it raises. *)
Theorem symbolic_weight_names_found (layer : WeightedLayer)
    (weights_arg : option (list nat)) (names : list string) :
  get_symbolic_weight_names layer weights_arg = inr names <->
  Forall2
    (fun weight name =>
       exists i,
         (good_guesses ++ dir_layer layer) !! i = Some name /\
         attributes layer !! name = Some weight /\
         forall j other,
           (good_guesses ++ dir_layer layer) !! j = Some other -> j < i ->
           attributes layer !! other <> Some weight)
    (default (weights layer) weights_arg) names.
Proof.
  unfold get_symbolic_weight_names. rewrite weight_names_fold. cbn [app].
  set (ws := default (weights layer) weights_arg).
  assert (forall w name,
            find_weight_name layer w = Some name <->
            exists i,
              (good_guesses ++ dir_layer layer) !! i = Some name /\
              attributes layer !! name = Some w /\
              forall j other,
                (good_guesses ++ dir_layer layer) !! j = Some other -> j < i ->
                attributes layer !! other <> Some w) as Hfind.
  { intros w name. unfold find_weight_name. split.
    - intros H. destruct (list_find _ _) as [[i n]|] eqn:E; [|done].
      injection H as ->. apply list_find_Some in E. eauto.
    - intros (i & H). by rewrite (proj2 (list_find_Some _ _ i name) H). }
  destruct (omap_all_found (find_weight_name layer) ws) as [_ Hall].
  case_decide as Hlen.
  - split; [done|]. intros HF. exfalso. apply Hlen.
    assert (Forall2 (fun a b => find_weight_name layer a = Some b) ws names)
      as HF'.
    { eapply Forall2_impl; [exact HF|]. intros w n. apply Hfind. }
    rewrite (Forall2_omap _ _ _ HF'). by eapply Forall2_length.
  - split.
    + intros [= <-]. eapply Forall2_impl; [exact (Hall Hlen)|].
      intros w n. apply Hfind.
    + intros HF. f_equal. apply Forall2_omap.
      eapply Forall2_impl; [exact HF|]. intros w n. apply Hfind.
Qed.

Lemma update_symbolic_weight_inr (tids ntids : list nat)
    (layer layer' : WeightedLayer) (name : string) (weight : nat) :
  update_symbolic_weight tids ntids layer name weight = inr layer' ->
  attributes layer' = <[name := weight]> (attributes layer) /\
  length (_trainable_weights layer') = length (_trainable_weights layer) /\
  length (_non_trainable_weights layer')
  = length (_non_trainable_weights layer).
Proof.
  unfold update_symbolic_weight.
  destruct (attributes layer !! name) as [c|]; [|done].
  case_bool_decide.
  - destruct (list_index c tids); [|done]. intros [= <-]. cbn.
    by rewrite length_insert.
  - destruct (list_index c ntids); [|done]. intros [= <-]. cbn.
    by rewrite length_insert.
Qed.

(** After [update_symbolic_weights] every name of the mapping is bound to
    its new weight, the other attributes are as before, and the two lists
    of weights have kept their lengths. *)
Theorem update_symbolic_weights_attributes (layer layer' : WeightedLayer)
    (weight_mapping : list (string * nat)) :
  update_symbolic_weights layer weight_mapping = inr layer' ->
  NoDup (map fst weight_mapping) ->
  (forall name weight,
     (name, weight) ∈ weight_mapping ->
     attributes layer' !! name = Some weight) /\
  (forall name,
     name ∉ map fst weight_mapping ->
     attributes layer' !! name = attributes layer !! name) /\
  length (_trainable_weights layer') = length (_trainable_weights layer) /\
  length (_non_trainable_weights layer')
  = length (_non_trainable_weights layer).
Proof.
  unfold update_symbolic_weights.
  generalize (_trainable_weights layer) at 1 as tids.
  generalize (_non_trainable_weights layer) at 1 as ntids.
  intros ntids tids. revert layer.
  induction weight_mapping as [|[name0 w0] rest IH]; intros layer;
    cbn [update_loop map fst].
  - intros [= <-] _. split_and!; [by intros ? ? ?%elem_of_nil|done..].
  - destruct (update_symbolic_weight tids ntids layer name0 w0)
      as [e|layer1] eqn:E; [done|].
    intros H [Hname0 Hnd]%NoDup_cons.
    apply update_symbolic_weight_inr in E as (Hattr & Ht & Hnt).
    destruct (IH _ H Hnd) as (IH1 & IH2 & IH3 & IH4).
    split_and!.
    + intros name weight [[= -> ->]|Hin]%elem_of_cons.
      * rewrite IH2 by done. rewrite Hattr. apply lookup_insert_eq.
      * by apply IH1.
    + intros name [Hne Hnot]%not_elem_of_cons.
      rewrite IH2 by done. rewrite Hattr. by rewrite lookup_insert_ne.
    + congruence.
    + congruence.
Qed.

Lemma update_loop_keeps (tids ntids : list nat)
    (items : list (string * nat)) (layer layer' : WeightedLayer)
    (name : string) :
  update_loop tids ntids items layer = inr layer' ->
  name ∉ map fst items ->
  attributes layer' !! name = attributes layer !! name.
Proof.
  revert layer. induction items as [|[name0 w0] rest IH]; intros layer;
    cbn [update_loop map fst].
  - by intros [= <-].
  - destruct (update_symbolic_weight tids ntids layer name0 w0)
      as [e|layer1] eqn:E; [done|].
    intros H [Hne Hnot]%not_elem_of_cons.
    apply update_symbolic_weight_inr in E as (Hattr & _).
    rewrite (IH _ H Hnot), Hattr. by rewrite lookup_insert_ne.
Qed.

(** [update_symbolic_weights] fails when a name of the mapping is not an
    attribute of the layer, and when the attribute of a name of the mapping
    is none of the weights of the two lists of the layer. *)
Theorem update_symbolic_weights_fails (layer : WeightedLayer)
    (weight_mapping : list (string * nat)) (name : string) (weight : nat) :
  NoDup (map fst weight_mapping) ->
  (name, weight) ∈ weight_mapping ->
  (attributes layer !! name = None \/
   exists current,
     attributes layer !! name = Some current /\
     (current ∉ _trainable_weights layer) /\
     (current ∉ _non_trainable_weights layer)) ->
  exists e, update_symbolic_weights layer weight_mapping = inl e.
Proof.
  unfold update_symbolic_weights.
  set (tids := _trainable_weights layer).
  set (ntids := _non_trainable_weights layer).
  intros Hnd Hin Hbad.
  assert (exists before after,
             weight_mapping = before ++ (name, weight) :: after)
    as (before & after & ->) by by apply list_elem_of_split.
  rewrite map_app in Hnd. apply NoDup_app in Hnd as (_ & Hdisj & _).
  assert (name ∉ map fst before) as Hnot.
  { intros Hb. apply (Hdisj name Hb). cbn. by left. }
  clear Hdisj Hin.
  assert (forall layer0,
            attributes layer0 !! name = attributes layer !! name ->
            exists e, update_loop tids ntids ((name, weight) :: after) layer0
                      = inl e) as Hhere.
  { intros layer0 Hsame. cbn [update_loop]. unfold update_symbolic_weight.
    rewrite Hsame. destruct Hbad as [-> |(c & -> & Ht & Hnt)]; [eauto|].
    rewrite bool_decide_eq_false_2 by done.
    unfold list_index.
    destruct (list_find (fun y => y = c) ntids) as [[i y]|] eqn:E; [|eauto].
    apply list_find_Some in E as (Hi & -> & _).
    exfalso. apply Hnt. by eapply list_elem_of_lookup_2. }
  clearbody tids ntids.
  assert (attributes layer !! name = attributes layer !! name) as Hsame by done.
  revert Hsame. generalize layer at 1 3 as layer0.
  induction before as [|[name0 w0] before IH]; intros layer0 Hsame;
    cbn [app update_loop].
  - by apply Hhere.
  - cbn [map fst] in Hnot. apply not_elem_of_cons in Hnot as [Hne Hnot].
    destruct (update_symbolic_weight tids ntids layer0 name0 w0)
      as [e|layer1] eqn:E; [eauto|].
    apply IH; [done|].
    apply update_symbolic_weight_inr in E as (Hattr & _).
    rewrite Hattr. by rewrite lookup_insert_ne.
Qed.

(** ** [pre_softmax_tensors] *)

Section PreSoftmaxFacts.

Context {T : Type}.
Variable contains_softmax : T -> bool.
Variable is_activation_layer : T -> bool.
Variable input_at : T -> T.
Variable apply_wo_activation : T -> T.

Lemma pre_softmax_fold (Xs : list T) (found : bool) (ret : list T) :
  fold_left (pre_softmax_step contains_softmax is_activation_layer input_at
                              apply_wo_activation) Xs (found, ret)
  = (found || existsb contains_softmax Xs,
     ret ++ map (fun x => if is_activation_layer x then input_at x
                          else apply_wo_activation x)
                (filter (fun x => contains_softmax x = true) Xs)).
Proof.
  revert found ret. induction Xs as [|x Xs IH]; intros found ret;
    cbn [fold_left existsb].
  - by rewrite orb_false_r, app_nil_r.
  - rewrite filter_cons. unfold pre_softmax_step at 2.
    destruct (contains_softmax x) eqn:Ex.
    + rewrite IH, decide_True by done. cbn [map orb].
      rewrite orb_true_r. by rewrite <- app_assoc.
    + rewrite IH, decide_False by done. by cbn [orb].
Qed.

(** [pre_softmax_tensors] returns one tensor for every given tensor whose
    layer contains a softmax, in order, and drops the other tensors: the
    input of the layer for an [Activation] layer, otherwise the result of
    the layer copied without activation. It raises exactly when a softmax
    was to be found and no given tensor has one. *)
Theorem pre_softmax_tensors_filter (Xs : list T) (should_find_softmax : bool) :
  pre_softmax_tensors contains_softmax is_activation_layer input_at
                      apply_wo_activation Xs should_find_softmax
  = if should_find_softmax && negb (existsb contains_softmax Xs)
    then inl (Exception no_softmax_msg)
    else inr (map (fun x => if is_activation_layer x then input_at x
                            else apply_wo_activation x)
                  (filter (fun x => contains_softmax x = true) Xs)).
Proof.
  unfold pre_softmax_tensors. rewrite pre_softmax_fold. done.
Qed.

End PreSoftmaxFacts.

(** ** Concrete runs of the further properties *)

Lemma filter_executed_nodes_keeps_output_nodes_witness :
  (prim 2, [1], [2])
    ∈ filter_executed_nodes [2]
        ([(inp 0, [0], [0]); (prim 1, [0], [1])]
           ++ (prim 2, [1], [2]) :: [(prim 3, [2], [3])]).
Proof.
  apply (filter_executed_nodes_keeps_output_nodes [2]
           [(inp 0, [0], [0]); (prim 1, [0], [1])] [(prim 3, [2], [3])]
           (prim 2) [1] [2]).
  repeat constructor.
Defined.

Lemma filter_executed_nodes_supported_witness :
  Forall (fun y => y ∈ [2] \/
                   exists node : ExecNode,
                     node ∈ [(prim 2, [1], [2])] /\ y ∈ snd (fst node))
         [1].
Proof.
  apply (filter_executed_nodes_supported [2] chain_with_extra_nodes
           [(inp 0, [0], [0])] [(prim 2, [1], [2])] (prim 1) [0] [1]).
  vm_compute. reflexivity.
Defined.

Lemma execution_trace_dense_nids_witness :
  exists trace,
    get_model_execution_trace chain_model false = inr trace /\
    map nd_nid trace = map Some (seq 0 (length trace)).
Proof.
  eexists. split; [vm_compute; reflexivity|].
  apply (execution_trace_dense_nids chain_model). vm_compute. reflexivity.
Defined.

Lemma execution_trace_producers_witness :
  exists trace d',
    get_model_execution_trace chain_model false = inr trace /\
    d' ∈ trace /\ nd_nid d' = Some 0 /\ 1 ∈ nd_Ys d'.
Proof.
  destruct (get_model_execution_trace chain_model false) as [e|trace] eqn:E;
    [vm_compute in E; discriminate|].
  pose proof E as E'. vm_compute in E'. injection E' as <-.
  match type of E with
  | _ = inr [_; ?d] =>
      destruct (execution_trace_producers chain_model false _ d 0 1 0 E)
        as (d' & H1 & H2 & H3);
        [apply list_elem_of_further, list_elem_of_here | reflexivity
         | reflexivity |]
  end.
  eexists _, d'. split_and!; [reflexivity | exact H1 | exact H2 | exact H3].
Defined.

Lemma execution_trace_consumers_witness :
  exists trace d',
    get_model_execution_trace chain_model false = inr trace /\
    d' ∈ trace /\ nd_nid d' = Some 1 /\ 1 ∈ nd_Xs d'.
Proof.
  destruct (get_model_execution_trace chain_model false) as [e|trace] eqn:E;
    [vm_compute in E; discriminate|].
  pose proof E as E'. vm_compute in E'. injection E' as <-.
  match type of E with
  | _ = inr [?d; _] =>
      destruct (execution_trace_consumers chain_model false _ d 0 1 1
                  [Some 1] E)
        as (d' & H1 & H2 & H3);
        [apply list_elem_of_here | reflexivity | reflexivity
         | apply list_elem_of_here |]
  end.
  eexists _, d'. split_and!; [reflexivity | exact H1 | exact H2 | exact H3].
Defined.

Lemma execution_trace_inputs_consumed_witness :
  exists l' Xs' Ys',
    (l', Xs', Ys') ∈ pruned_execution_list chain_model /\
    is_input_layer l' = false /\ 0 ∈ Xs'.
Proof.
  destruct (get_model_execution_trace chain_model true) as [e|trace] eqn:E;
    [vm_compute in E; discriminate|].
  apply (execution_trace_inputs_consumed chain_model true trace
           (inp 0) [0] [0] 0 E).
  - apply list_elem_of_here.
  - reflexivity.
  - apply list_elem_of_here.
Defined.

Lemma execution_graph_lookup_witness :
  exists graph trace,
    get_model_execution_graph chain_model true = inr graph /\
    get_model_execution_trace chain_model true = inr trace /\
    graph !! None
    = Some (inr (filter (fun node => nd_nid node = None) trace)).
Proof.
  destruct (get_model_execution_graph chain_model true) as [e|graph] eqn:E;
    [vm_compute in E; discriminate|].
  destruct (execution_graph_lookup chain_model true graph E)
    as (trace & Ht & _ & Hnone).
  exists graph, trace. split_and!; [reflexivity | exact Ht | exact Hnone].
Defined.

Lemma get_bottleneck_nodes_sublist_witness :
  exists ret,
    get_bottleneck_nodes [0] [2] (lin_executed_nodes (model_linearized chain_model))
    = inr ret /\
    ret `sublist_of`
      map (fun node : ExecNode => (fst (fst node), (snd (fst node), snd node)))
          (layer_nodes (lin_executed_nodes (model_linearized chain_model))).
Proof.
  eexists. split; [vm_compute; reflexivity|].
  apply (get_bottleneck_nodes_sublist [0] [2]). vm_compute. reflexivity.
Defined.

Lemma get_bottleneck_tensors_elem_witness :
  exists ret nodes,
    get_bottleneck_tensors [0] [2]
      (lin_executed_nodes (model_linearized chain_model)) = inr ret /\
    get_bottleneck_nodes [0] [2]
      (lin_executed_nodes (model_linearized chain_model)) = inr nodes /\
    NoDup ret.
Proof.
  destruct (get_bottleneck_tensors [0] [2]
              (lin_executed_nodes (model_linearized chain_model)))
    as [e|ret] eqn:E; [vm_compute in E; discriminate|].
  destruct (get_bottleneck_tensors_elem _ _ _ _ E) as (nodes & Hn & Hnd & _).
  exists ret, nodes. split_and!; [reflexivity | exact Hn | exact Hnd].
Defined.


Lemma get_reversed_tensor_cached_witness :
  exists rt2 : gmap nat (ReverseTensorDict Z),
    get_reversed_tensor zAdd zProject zClip (IsBool false) (IsBool false)
                        ∅ 5 rt2 = inr (1%Z, rt2).
Proof.
  eexists.
  eapply (get_reversed_tensor_cached zAdd zProject zClip []
            (IsBool false) (IsBool false) ∅ 0%Z 0 5 1%Z [5] [2%Z]
            (<[5 := {| id_ := (0%Z, 0); tensor := Some 1%Z; tensors := None;
                       final_tensor := None |}]> ∅)).
  - vm_compute. reflexivity.
  - vm_compute. reflexivity.
Defined.

Lemma network_in_execution_list_fails_witness :
  reverse_model zAdd zProject zClip Z.of_nat network_model (plain_args pass_sum)
  = inl (Exception network_msg).
Proof.
  eapply (network_in_execution_list_fails zAdd zProject zClip Z.of_nat
            network_model (plain_args pass_sum) 0
            {| layer_id := 1; layer_class := Network |} [0] [1]).
  - vm_compute. reflexivity.
  - vm_compute. reflexivity.
  - reflexivity.
Defined.

Lemma unknown_layer_fails_witness :
  reverse_model zAdd zProject zClip Z.of_nat (flat_model [0] [1] [])
                unlisted_layer_args
  = inl (KeyError_layer (prim 1)).
Proof.
  eapply (unknown_layer_fails zAdd zProject zClip Z.of_nat
            (flat_model [0] [1] []) unlisted_layer_args 0 (prim 1) [0] [1]).
  - vm_compute. reflexivity.
  - vm_compute. reflexivity.
  - reflexivity.
  - apply not_elem_of_nil.
  - vm_compute. repeat constructor. eexists. reflexivity.
Defined.

Lemma reverse_model_errors_witness :
  reversal_error (Exception aggregation_msg) /\
  Exception aggregation_msg <> Exception wrong_order_msg /\
  (forall msg, Exception aggregation_msg <> ValueError msg).
Proof.
  apply (reverse_model_errors zAdd zProject zClip Z.of_nat
           fan_out3_model (plain_args pass_sum)).
  vm_compute. reflexivity.
Defined.

Lemma reversed_tensors_keys_witness :
  0 ∈ outputs_of two_inputs_model stop_input_args \/
  exists l Xs Ys,
    (l, Xs, Ys) ∈ execution_list_of two_inputs_model stop_input_args /\
    layer_class l = Primitive /\ 0 ∈ Xs.
Proof.
  eapply (reversed_tensors_keys zAdd zProject zClip Z.of_nat
            two_inputs_model stop_input_args).
  - vm_compute. reflexivity.
  - vm_compute. eexists. reflexivity.
Defined.

Lemma linear_chain_reversal_witness :
  reverse_model (Num := Z) zAdd zProject zClip Z.of_nat (flat_model [0] [2] [])
    (chain_args (Some (fun _ => 5%Z)) [prim 1; prim 2] 0
                [(prim 1, 1); (prim 2, 2)])
  = inr (ReversedInputs [5%Z]).
Proof.
  apply (linear_chain_reversal zAdd zProject zClip Z.of_nat
           (flat_model [0] [2] []) (Some (fun _ => 5%Z)) [prim 1; prim 2] 0
           [(prim 1, 1); (prim 2, 2)]).
  - reflexivity.
  - apply (bool_decide_unpack _). vm_compute. exact I.
  - repeat constructor.
Defined.

Lemma linear_chain_bottlenecks_witness :
  get_bottleneck_nodes [0] [2] (chain_nodes 0 [(prim 1, 1); (prim 2, 2)])
  = inr [(prim 1, ([0], [1])); (prim 2, ([1], [2]))].
Proof.
  apply (linear_chain_bottlenecks 0 [(prim 1, 1); (prim 2, 2)]).
  - discriminate.
  - apply (bool_decide_unpack _). vm_compute. exact I.
  - repeat constructor.
Defined.

Lemma model_contains_elem_witness :
  exists ret,
    model_contains nested_model_layers [is_network] = inr ret /\
    length ret = 1.
Proof.
  destruct (model_contains nested_model_layers [is_network]) as [e|ret] eqn:E;
    [vm_compute in E; discriminate|].
  destruct (model_contains_elem _ _ _ E) as [Hlen _].
  exists ret. split; [reflexivity | exact Hlen].
Defined.

Lemma update_symbolic_weights_attributes_witness :
  exists layer',
    update_symbolic_weights dense_layer
      [("kernel"%string, 20); ("bias"%string, 21)] = inr layer' /\
    attributes layer' !! "kernel"%string = Some 20.
Proof.
  destruct (update_symbolic_weights dense_layer
              [("kernel"%string, 20); ("bias"%string, 21)])
    as [e|layer'] eqn:E; [vm_compute in E; discriminate|].
  destruct (update_symbolic_weights_attributes _ _ _ E) as (H & _).
  { apply (bool_decide_unpack _). vm_compute. exact I. }
  exists layer'. split; [reflexivity|]. apply H. apply list_elem_of_here.
Defined.

Lemma update_symbolic_weights_fails_witness :
  exists e,
    update_symbolic_weights dense_layer [("gamma"%string, 5)] = inl e.
Proof.
  apply (update_symbolic_weights_fails dense_layer [("gamma"%string, 5)]
           "gamma"%string 5).
  - apply (bool_decide_unpack _). vm_compute. exact I.
  - apply list_elem_of_here.
  - left. vm_compute. reflexivity.
Defined.

Lemma walk_nid_trace_nid_witness :
  rev ([(inp 10, [0], [0])] ++ (prim 11, [0], [1])
         :: [(inp 12, [2], [2]); (prim 13, [1; 2], [3]); (prim 14, [3], [4])])
    !! 3 = Some (prim 11, [0], [1]) /\
  walk_nid 3 3 = (-1)%Z.
Proof.
  apply (walk_nid_trace_nid [(inp 10, [0], [0])]
           [(inp 12, [2], [2]); (prim 13, [1; 2], [3]); (prim 14, [3], [4])]
           (prim 11) [0] [1]).
  reflexivity.
Defined.

Lemma enrich_with_nids_strip (current_nid : nat)
    (execution_list : list ExecNode) :
  map (fun t : IdNode => (snd (fst (fst t)), snd (fst t), snd t))
      (enrich_with_nids current_nid execution_list)
  = execution_list.
Proof.
  revert current_nid.
  induction execution_list as [|[[l Xs] Ys] rest IH]; intros c; [done|].
  cbn [enrich_with_nids].
  destruct (is_input_layer l); cbn [map fst snd]; by rewrite IH.
Qed.

(** With the input layers kept, the returned trace lists every node of the
    filtered execution list, in its order; a node has no id exactly when
    its layer is an input layer, and such a node has no producer ids. *)
Theorem execution_trace_with_input_layers (model : Model)
    (trace : list NodeDict) :
  get_model_execution_trace model true = inr trace ->
  map (fun d => (nd_layer d, nd_Xs d, nd_Ys d)) trace
    = pruned_execution_list model /\
  Forall (fun d =>
            (nd_nid d = None <-> is_input_layer (nd_layer d) = true) /\
            (is_input_layer (nd_layer d) = true -> nd_Xs_nids d = []))
         trace.
Proof.
  intros H. apply get_model_execution_trace_inr in H
    as (itn & otn & all_nodes & _ & Hall & ->).
  pose proof (Forall2_make_entry_core _ _ _ _ _ Hall) as Hcore.
  split.
  - rewrite <- (enrich_with_nids_strip 0 (pruned_execution_list model)).
    rewrite <- Hcore, map_map. done.
  - apply Forall_forall. intros d Hd. split.
    + assert (node_core d ∈ enrich_with_nids 0 (pruned_execution_list model))
        as Hin.
      { rewrite <- Hcore. apply list_elem_of_fmap. eauto. }
      apply enrich_with_nids_elem in Hin as (_ & Hinp & Hlay).
      destruct (is_input_layer (nd_layer d)) eqn:El.
      * split; [done|]. intros _. by apply Hinp.
      * destruct (Hlay eq_refl) as (n & Hn & _). rewrite Hn. done.
    + apply list_elem_of_lookup in Hd as [i Hi].
      destruct (Forall2_lookup_r _ _ _ _ _ Hall Hi) as (t & _ & Ht).
      apply make_entry_links in Ht as [Ht _]. intros El. by apply Ht.
Qed.

Lemma execution_trace_with_input_layers_witness :
  exists trace,
    get_model_execution_trace chain_model true = inr trace /\
    map (fun d => (nd_layer d, nd_Xs d, nd_Ys d)) trace
    = pruned_execution_list chain_model.
Proof.
  destruct (get_model_execution_trace chain_model true) as [e|trace] eqn:E;
    [vm_compute in E; discriminate|].
  exists trace. split; [reflexivity|].
  apply (execution_trace_with_input_layers chain_model trace E).
Defined.

(** * The duplicate-producer exception *)










